(** * TimeCols: the time-grid coordinate engine of fullcalendar

    A shallow embedding of [packages/timegrid/src/TimeCols.tsx]: option
    processing, the time-to-pixel mapping, the vertical layout of segments,
    the now indicator and the hit system, together with the properties the
    specification states about them.

    Numbers.  A JavaScript number is modelled by [num]: an exact rational,
    one of the two infinities, or NaN.  Rounding of binary64 arithmetic is
    abstracted away and the two signed zeros are identified (a zero divisor
    counts as +0); everything else follows IEEE 754 / ECMAScript: division by
    zero yields an infinity or NaN, NaN is absorbing and compares false with
    everything, [Math.max]/[Math.min] return NaN as soon as one argument is
    NaN.  Reading an array outside its bounds yields [undefined], which
    becomes NaN as soon as it is used as a number.

    The snap computation of the hit test is the exception: there a
    [Math.floor] turns the last bit of a product into a whole snap, so every
    operation that feeds it is rounded to binary64 (round to nearest, ties to
    even), as module [F64] defines it. *)

From Stdlib Require Import ZArith QArith Qround List Permutation Bool String Lia Lqa.
Import ListNotations.

Local Open Scope Q_scope.

(** ** JavaScript numbers *)

Inductive num : Type :=
| NaN
| NegInf
| PosInf
| Fin (q : Q).

Declare Scope num_scope.
Delimit Scope num_scope with num.
Bind Scope num_scope with num.

Module JS.

Definition ofZ (z : Z) : num := Fin (inject_Z z).
Definition ofNat (n : nat) : num := Fin (inject_Z (Z.of_nat n)).

(** Numeric equality up to the representation of rationals.  It is the
    meta-level "same number" relation (NaN is related to itself), not the
    [===] of the language. *)
Definition eqv (a b : num) : Prop :=
  match a, b with
  | NaN, NaN | NegInf, NegInf | PosInf, PosInf => True
  | Fin p, Fin q => p == q
  | _, _ => False
  end.

Definition isNaN (a : num) : bool :=
  match a with NaN => true | _ => false end.

Definition isFinite (a : num) : bool :=
  match a with Fin _ => true | _ => false end.

(** [a <= b] and [a < b] of the language: false whenever NaN takes part. *)
Definition leb (a b : num) : bool :=
  match a, b with
  | NaN, _ | _, NaN => false
  | NegInf, _ => true
  | _, PosInf => true
  | Fin p, Fin q => Qle_bool p q
  | _, _ => false
  end.

Definition ltb (a b : num) : bool :=
  match a, b with
  | NaN, _ | _, NaN => false
  | NegInf, NegInf => false
  | PosInf, _ => false
  | NegInf, _ => true
  | Fin _, NegInf => false
  | Fin _, PosInf => true
  | Fin p, Fin q => negb (Qle_bool q p)
  end.

Definition neg (a : num) : num :=
  match a with
  | NaN => NaN
  | NegInf => PosInf
  | PosInf => NegInf
  | Fin q => Fin (- q)
  end.

Definition add (a b : num) : num :=
  match a, b with
  | NaN, _ | _, NaN => NaN
  | PosInf, NegInf | NegInf, PosInf => NaN
  | PosInf, _ | _, PosInf => PosInf
  | NegInf, _ | _, NegInf => NegInf
  | Fin p, Fin q => Fin (p + q)
  end.

Definition sub (a b : num) : num := add a (neg b).

(** The infinity with the sign of [q]; NaN for [q == 0]. *)
Definition signedInf (q : Q) : num :=
  if Qeq_bool q 0 then NaN
  else if Qle_bool 0 q then PosInf else NegInf.

Definition mul (a b : num) : num :=
  match a, b with
  | NaN, _ | _, NaN => NaN
  | Fin p, Fin q => Fin (p * q)
  | PosInf, PosInf | NegInf, NegInf => PosInf
  | PosInf, NegInf | NegInf, PosInf => NegInf
  | PosInf, Fin q | Fin q, PosInf => signedInf q
  | NegInf, Fin q | Fin q, NegInf => signedInf (- q)
  end.

Definition div (a b : num) : num :=
  match a, b with
  | NaN, _ | _, NaN => NaN
  | Fin p, Fin q => if Qeq_bool q 0 then signedInf p else Fin (p / q)
  | Fin _, _ => Fin 0
  | _, Fin q => if Qle_bool 0 q then a else neg a
  | _, _ => NaN
  end.

Definition Math_max (a b : num) : num :=
  match a, b with
  | NaN, _ | _, NaN => NaN
  | _, _ => if leb a b then b else a
  end.

Definition Math_min (a b : num) : num :=
  match a, b with
  | NaN, _ | _, NaN => NaN
  | _, _ => if leb a b then a else b
  end.

Definition Math_floor (a : num) : num :=
  match a with
  | Fin q => Fin (inject_Z (Qfloor q))
  | _ => a
  end.

(** [arr[i]]: the element when [i] is an integer within the bounds,
    [undefined] ([None]) otherwise, also for a negative, fractional or
    non-finite [i]. *)
Definition index {A : Type} (arr : list A) (i : num) : option A :=
  match i with
  | Fin q =>
      if Qeq_bool q (inject_Z (Qfloor q)) && (0 <=? Qfloor q)%Z
      then nth_error arr (Z.to_nat (Qfloor q))
      else None
  | _ => None
  end.

(** A value read from an array of numbers, used as a number. *)
Definition toNumber (v : option Q) : num :=
  match v with
  | Some q => Fin q
  | None => NaN
  end.

End JS.

Infix "+" := JS.add : num_scope.
Infix "-" := JS.sub : num_scope.
Infix "*" := JS.mul : num_scope.
Infix "/" := JS.div : num_scope.
Notation "- x" := (JS.neg x) : num_scope.
Infix "==" := JS.eqv (at level 70, no associativity) : num_scope.

(** ** Binary64 arithmetic

    The operations of the language on doubles: the exact result, rounded to
    the nearest double, ties to even, with gradual underflow and overflow to
    an infinity. *)

Module F64.

(** [m * 2 ^ e]. *)
Definition scale (m e : Z) : Q :=
  if (0 <=? e)%Z then inject_Z (m * 2 ^ e) else m # Z.to_pos (2 ^ (- e)).

(** The whole part of the binary logarithm of [a / d], for positive [a] and
    [d]. *)
Definition floorLog2 (a d : Z) : Z :=
  let L := (Z.log2 a - Z.log2 d)%Z in
  if (d * 2 ^ Z.max 0 L <=? a * 2 ^ Z.max 0 (- L))%Z then L else (L - 1)%Z.

(** [n / d] rounded to the nearest integer, ties to even. *)
Definition roundHalfEven (n d : Z) : Z :=
  let q := (n / d)%Z in
  match (2 * (n mod d) ?= d)%Z with
  | Lt => q
  | Gt => (q + 1)%Z
  | Eq => if Z.even q then q else (q + 1)%Z
  end.

(** The double nearest to [a / d], for positive [a] and [d]: a mantissa of 53
    bits, and an exponent not below that of the subnormal numbers. *)
Definition nearest (a d : Z) : Q :=
  let e := Z.max (floorLog2 a d - 52) (-1074) in
  scale (roundHalfEven (a * 2 ^ Z.max 0 (- e)) (d * 2 ^ Z.max 0 e)) e.

(** From here on a magnitude rounds to an infinity: the largest double plus
    half a unit in its last place. *)
Definition overflow : Q := inject_Z (2 ^ 1024 - 2 ^ 970).

Definition round64 (q : Q) : num :=
  let q := Qred q in
  match Qnum q with
  | Z0 => Fin 0
  | Zpos a =>
      if Qle_bool overflow q then PosInf
      else Fin (nearest (Zpos a) (Zpos (Qden q)))
  | Zneg a =>
      if Qle_bool overflow (- q) then NegInf
      else Fin (- nearest (Zpos a) (Zpos (Qden q)))
  end.

Definition round (a : num) : num :=
  match a with
  | Fin q => round64 q
  | _ => a
  end.

Definition add (a b : num) : num := round (JS.add a b).
Definition sub (a b : num) : num := round (JS.sub a b).
Definition mul (a b : num) : num := round (JS.mul a b).
Definition div (a b : num) : num := round (JS.div a b).

End F64.

(** ** Exceptions

    The only exception the modelled code can raise by itself is the
    [TypeError] of a property read on [undefined]. *)

Inductive res (A : Type) : Type :=
| Ok (a : A)
| TypeError.
Arguments Ok {A} a.
Arguments TypeError {A}.

Definition bind {A B : Type} (r : res A) (k : A -> res B) : res B :=
  match r with
  | Ok a => k a
  | TypeError => TypeError
  end.

Notation "x <- r ;; k" := (bind r (fun x => k))
  (at level 61, r at next level, right associativity).

(** ** Durations and date markers

    [Duration], [DateMarker] and their helpers are imported from
    [@fullcalendar/core], which is not part of the sources at hand. *)

(** Modelled from the spec: the [Duration] type of [@fullcalendar/core] is
    missing; the spec describes it as a signed span of time with
    millisecond-equivalent granularity.  The source reads its [milliseconds]
    field. *)
Record Duration : Type := { milliseconds : num }.

(** Modelled from the spec: [asRoughMs] is missing; with millisecond
    granularity the rough number of milliseconds of a span is the span. *)
Definition asRoughMs (d : Duration) : num := milliseconds d.

(** What [createDuration] accepts: a number of milliseconds, or a string or
    object; for the latter only the span it denotes is kept. *)
Inductive DurationInput : Type :=
| InNumber (ms : num)
| InParsed (d : Duration).

(** Modelled from the spec: [createDuration] is missing (option parsing is
    outside the spec); a number of milliseconds denotes that span. *)
Definition createDuration (input : DurationInput) : Duration :=
  match input with
  | InNumber ms => {| milliseconds := ms |}
  | InParsed d => d
  end.

(** Truthiness of an optional duration input: [undefined], the numbers 0 and
    NaN are falsy, strings and objects that denote a span are truthy. *)
Definition truthy (input : option DurationInput) : bool :=
  match input with
  | None => false
  | Some (InNumber NaN) => false
  | Some (InNumber (Fin q)) => negb (Qeq_bool q 0)
  | Some _ => true
  end.

(** Modelled from the spec: [addDurations] is missing; spans support
    addition. *)
Definition addDurations (d0 d1 : Duration) : Duration :=
  {| milliseconds := (milliseconds d0 + milliseconds d1)%num |}.

(** Modelled from the spec: [multiplyDuration] is missing; spans support
    multiplication by a scalar. *)
Definition multiplyDuration (d : Duration) (n : num) : Duration :=
  {| milliseconds := (milliseconds d * n)%num |}.

Definition isInt (q : Q) : bool := Qeq_bool q (inject_Z (Qfloor q)).

(** Modelled from the spec: [wholeDivideDurations] is missing; the spec gives
    spans an exact integer division by another span, which yields either an
    integer count or "not evenly divisible" ([null], here [None]).  Nothing
    divides by the empty span. *)
Definition wholeDivideDurations (numerator denominator : Duration) : option num :=
  match milliseconds numerator, milliseconds denominator with
  | Fin n, Fin d =>
      if Qeq_bool d 0 then None
      else if isInt (n / d) then Some (Fin (n / d)) else None
  | _, _ => None
  end.

(** A [DateMarker] is a [Date]; it is used through its time value
    ([valueOf()]), a number of milliseconds. *)
Definition DateMarker : Type := num.

(** Modelled from the spec: [dateEnv.add] is missing; it moves a date marker
    by a span. *)
Definition dateEnv_add (marker : DateMarker) (d : Duration) : DateMarker :=
  (marker + milliseconds d)%num.

(** ** Position caches *)

(** Modelled from the spec: the [PositionCache] class of
    [@fullcalendar/core] is missing.  After [build()] it holds, for each of
    its elements in order, the [offset] of the leading edge and the [extent]
    along the axis; the far edge is derived. *)
Record Region : Type := { offset : Q; extent : Q }.

Definition farEdge (r : Region) : Q := offset r + extent r.

Definition PositionCache : Type := list Region.

(** The arrays the source reads from a cache. *)
Definition tops (c : PositionCache) : list Q := map offset c.
Definition lefts (c : PositionCache) : list Q := map offset c.
Definition rights (c : PositionCache) : list Q := map farEdge c.

(** Modelled from the spec: [getHeight] ([indexToExtent]) is a direct array
    read; an index outside the cache is reported as "no result" rather than as
    a thrown fault, which in arithmetic is NaN. *)
Definition getHeight (c : PositionCache) (i : num) : num :=
  JS.toNumber (JS.index (map extent c) i).

Definition contains (r : Region) (position : Q) : bool :=
  Qle_bool (offset r) position && negb (Qle_bool (farEdge r) position).

(** Modelled from the spec: [positionToIndex] scans the regions and returns
    the index of the one whose interval [[offset, farEdge)] contains the
    position, or "not found" ([null], here [None]). *)
Fixpoint positionToIndexFrom (i : nat) (c : PositionCache) (position : Q) : option nat :=
  match c with
  | [] => None
  | r :: rest =>
      if contains r position then Some i
      else positionToIndexFrom (S i) rest position
  end.

Definition positionToIndex : PositionCache -> Q -> option nat := positionToIndexFrom 0.
Definition leftToIndex : PositionCache -> Q -> option nat := positionToIndex.
Definition topToIndex : PositionCache -> Q -> option nat := positionToIndex.

(** ** The component *)

(** A segment: its column, its time range and, once processed, its vertical
    pixel extents ([None] while still unassigned). *)
Record Seg : Type := {
  col : nat;
  start : DateMarker;
  end_ : DateMarker;
  top : option num;
  bottom : option num
}.

(** The fields of a [TimeCols] instance that the coordinate engine reads,
    together with the props and context options it reaches through [this]. *)
Record TimeCols : Type := {
  (* computed options *)
  slotDuration : Duration;
  snapDuration : Duration;
  snapsPerSlot : num;
  (* geometry: [slatPositions] is constructed over [slatEls] and
     [colPositions] over [colEls], one region per element *)
  colPositions : PositionCache;
  slatPositions : PositionCache;
  colContainerEls : nat;            (* how many column containers there are *)
  (* this.props *)
  cells : list DateMarker;          (* props.cells[i].date *)
  minTime : Duration;               (* props.dateProfile.minTime *)
  (* this.context.options *)
  timeGridEventMinHeight : num
}.

(** [this.slatEls.length]: the slat cache holds one region per slat element. *)
Definition slatEls_length (this : TimeCols) : nat := List.length (slatPositions this).

Record Options : Type := {
  opt_slotDuration : DurationInput;
  opt_snapDuration : option DurationInput
}.

Definition withOptions (this : TimeCols) (slot snap : Duration) (perSlot : num) : TimeCols :=
  {| slotDuration := slot;
     snapDuration := snap;
     snapsPerSlot := perSlot;
     colPositions := colPositions this;
     slatPositions := slatPositions this;
     colContainerEls := colContainerEls this;
     cells := cells this;
     minTime := minTime this;
     timeGridEventMinHeight := timeGridEventMinHeight this |}.

(** The snap duration before the division: the configured one when the option
    is set, the slot duration otherwise. *)
Definition requestedSnapDuration (options : Options) : Duration :=
  match opt_snapDuration options with
  | Some input =>
      if truthy (Some input) then createDuration input
      else createDuration (opt_slotDuration options)
  | None => createDuration (opt_slotDuration options)
  end.

(** [_processOptions]: parses the options into properties of the object. *)
Definition _processOptions (this : TimeCols) (options : Options) : TimeCols :=
  let slotDuration := createDuration (opt_slotDuration options) in
  let snapDuration := requestedSnapDuration options in
  match wholeDivideDurations slotDuration snapDuration with
  | None => withOptions this slotDuration slotDuration (JS.ofZ 1)
  | Some snapsPerSlot => withOptions this slotDuration snapDuration snapsPerSlot
  end.

(** *** Coordinates *)

(** The floating-point number of slats covered by a time, constrained to
    [0 .. len]. *)
Definition slatCoverageOf (this : TimeCols) (duration : Duration) : num :=
  let len := JS.ofNat (slatEls_length this) in
  let slatCoverage :=
    ((milliseconds duration - asRoughMs (minTime this)) / asRoughMs (slotDuration this))%num in
  let slatCoverage := JS.Math_max (JS.ofZ 0) slatCoverage in
  JS.Math_min len slatCoverage.

(** The integer index of the furthest whole slat. *)
Definition slatIndexOf (this : TimeCols) (duration : Duration) : num :=
  let len := JS.ofNat (slatEls_length this) in
  let slatIndex := JS.Math_floor (slatCoverageOf this duration) in
  JS.Math_min slatIndex (len - JS.ofZ 1)%num.

(** [computeTimeTop]: the top coordinate, relative to the bounds of the grid,
    of the given time. *)
Definition computeTimeTop (this : TimeCols) (duration : Duration) : num :=
  let slatCoverage := slatCoverageOf this duration in
  let slatIndex := slatIndexOf this duration in
  let slatRemainder := (slatCoverage - slatIndex)%num in
  (JS.toNumber (JS.index (tops (slatPositions this)) slatIndex) +
   getHeight (slatPositions this) slatIndex * slatRemainder)%num.

Section WithStartOfDay.

(** [startOfDay] of [@fullcalendar/core]: the start of the day a date marker
    falls in. *)
Variable startOfDay : DateMarker -> DateMarker.

(** [computeDateTop]: the top coordinate of the given date; [startOfDayDate]
    may be left out. *)
Definition computeDateTop (this : TimeCols) (when : DateMarker)
    (startOfDayDate : option DateMarker) : num :=
  let startOfDayDate :=
    match startOfDayDate with
    | Some d => d
    | None => startOfDay when
    end in
  computeTimeTop this (createDuration (InNumber (when - startOfDayDate)%num)).

(** One step of the loop of [computeSegVerticals]. *)
Definition computeSegVertical (this : TimeCols) (seg : Seg) : res Seg :=
  match nth_error (cells this) (col seg) with
  | None => TypeError
  | Some dayDate =>
      let top := computeDateTop this (start seg) (Some dayDate) in
      let bottom :=
        JS.Math_max
          (top + timeGridEventMinHeight this)%num
          (computeDateTop this (end_ seg) (Some dayDate)) in
      Ok {| col := col seg; start := start seg; end_ := end_ seg;
            top := Some top; bottom := Some bottom |}
  end.

(** [computeSegVerticals]: for each segment, computes and assigns its top and
    bottom properties; the result is the list of the updated segments. *)
Fixpoint computeSegVerticals (this : TimeCols) (segs : list Seg) : res (list Seg) :=
  match segs with
  | [] => Ok []
  | seg :: rest =>
      seg' <- computeSegVertical this seg ;;
      rest' <- computeSegVerticals this rest ;;
      Ok (seg' :: rest')
  end.

(** *** Now indicator *)

Inductive Parent : Type :=
| ColContainer (col : nat)
| RootEl.

(** A created [div]: its class, its [style.top] in pixels and the element it
    was appended to. *)
Record Node : Type := {
  className : string;
  style_top : num;
  parentNode : Parent
}.

Definition lineEl (top_ : num) (col : nat) : Node :=
  {| className := "fc-now-indicator fc-now-indicator-line";
     style_top := top_;
     parentNode := ColContainer col |}.

Definition arrowEl (top_ : num) : Node :=
  {| className := "fc-now-indicator fc-now-indicator-arrow";
     style_top := top_;
     parentNode := RootEl |}.

(** The lines within the columns: a line is appended to the container of the
    segment's column, which must exist. *)
Fixpoint renderLines (this : TimeCols) (top_ : num) (segs : list Seg) : res (list Node) :=
  match segs with
  | [] => Ok []
  | seg :: rest =>
      if (col seg <? colContainerEls this)%nat then
        rest' <- renderLines this top_ rest ;;
        Ok (lineEl top_ (col seg) :: rest')
      else TypeError
  end.

(** [_renderNowIndicator]: the nodes it creates, in the order they are
    pushed. *)
Definition _renderNowIndicator (this : TimeCols) (date : option DateMarker)
    (segs : list Seg) : res (list Node) :=
  match date with
  | None => Ok []
  | Some date =>
      let top_ := computeDateTop this date None in
      nodes <- renderLines this top_ segs ;;
      if (0 <? List.length segs)%nat then Ok (nodes ++ [arrowEl top_])
      else Ok nodes
  end.

End WithStartOfDay.

(** *** Applying verticals *)

Record VerticalCss : Type := {
  css_top : option num;
  css_bottom : num
}.

(** A stored coordinate used as a number ([undefined] gives NaN). *)
Definition coordinate (v : option num) : num :=
  match v with
  | Some n => n
  | None => NaN
  end.

(** [generateSegVerticalCss]: the CSS properties for the top/bottom
    coordinates of a segment element. *)
Definition generateSegVerticalCss (seg : Seg) : VerticalCss :=
  {| css_top := top seg;
     css_bottom := (- coordinate (bottom seg))%num |}.

(** [assignSegVerticals]: the style applied to each segment's element. *)
Definition assignSegVerticals (segs : list Seg) : list VerticalCss :=
  map generateSegVerticalCss segs.

(** *** Hit system *)

Record Rect : Type := {
  left : num;
  right : num;
  rect_top : num;
  rect_bottom : num
}.

Record Hit : Type := {
  hit_col : nat;
  range_start : DateMarker;
  range_end : DateMarker;
  allDay : bool;
  dayEl : nat;                      (* colEls[colIndex], by its index *)
  relativeRect : Rect
}.

(** The snap computation of [positionToHit] for a found slat, in binary64:
    the floor makes the rounding of the product observable. *)
Definition partialOf (this : TimeCols) (slatIndex : nat) (positionTop : Q) : num :=
  let slatTop := JS.toNumber (JS.index (tops (slatPositions this)) (JS.ofNat slatIndex)) in
  let slatHeight := getHeight (slatPositions this) (JS.ofNat slatIndex) in
  F64.div (F64.sub (Fin positionTop) slatTop) slatHeight.

Definition snapIndexOf (this : TimeCols) (slatIndex : nat) (positionTop : Q) : num :=
  let partial := partialOf this slatIndex positionTop in
  let localSnapIndex := JS.Math_floor (F64.mul partial (snapsPerSlot this)) in
  F64.add (F64.mul (JS.ofNat slatIndex) (snapsPerSlot this)) localSnapIndex.

Definition timeOf (this : TimeCols) (slatIndex : nat) (positionTop : Q) : Duration :=
  addDurations (minTime this)
    (multiplyDuration (snapDuration this) (snapIndexOf this slatIndex positionTop)).

(** [positionToHit]: [Ok None] is the absence of a hit. *)
Definition positionToHit (this : TimeCols) (positionLeft positionTop : Q) : res (option Hit) :=
  let colIndex := leftToIndex (colPositions this) positionLeft in
  let slatIndex := topToIndex (slatPositions this) positionTop in
  match colIndex, slatIndex with
  | Some colIndex, Some slatIndex =>
      let slatTop := JS.toNumber (JS.index (tops (slatPositions this)) (JS.ofNat slatIndex)) in
      let slatHeight := getHeight (slatPositions this) (JS.ofNat slatIndex) in
      match nth_error (cells this) colIndex with
      | None => TypeError
      | Some dayDate =>
          let time := timeOf this slatIndex positionTop in
          let start := dateEnv_add dayDate time in
          let end_ := dateEnv_add start (snapDuration this) in
          Ok (Some
            {| hit_col := colIndex;
               range_start := start;
               range_end := end_;
               allDay := false;
               dayEl := colIndex;
               relativeRect :=
                 {| left := JS.toNumber (JS.index (lefts (colPositions this)) (JS.ofNat colIndex));
                    right := JS.toNumber (JS.index (rights (colPositions this)) (JS.ofNat colIndex));
                    rect_top := slatTop;
                    rect_bottom := (slatTop + slatHeight)%num |} |})
      end
  | _, _ => Ok None
  end.

(** [getTotalSlatHeight]: the height of the element that wraps the slat rows.
    The slats are measured from its top and fill it, so this is the far edge
    of the last slat. *)
Definition getTotalSlatHeight (this : TimeCols) : num :=
  match rev (slatPositions this) with
  | [] => Fin 0
  | r :: _ => Fin (farEdge r)
  end.

(** *** Sub-renderers *)

(** An [EventSegUiInteractionState], as far as [subrender] reads it.  The
    affected instances are an object (a hash), so they are always truthy;
    their type is left open. *)
Record Interaction (Instances : Type) : Type := {
  interaction_segs : list Seg;
  affectedInstances : Instances;
  interactingSeg : option Seg
}.
Arguments interaction_segs {Instances} _.
Arguments affectedInstances {Instances} _.
Arguments interactingSeg {Instances} _.

(** The props handed to the mirror renderer (the container elements, which
    are the same array on every path, are left out). *)
Record MirrorProps : Type := {
  mirror_segs : list Seg;
  isDragging : bool;
  isResizing : bool;
  isSelecting : bool;
  mirror_interactingSeg : option Seg;
  mirror_forPrint : bool
}.

(** [props.eventDrag && props.eventDrag.segs.length]: the interaction, when
    it exists and has segments. *)
Definition active {Instances : Type} (state : option (Interaction Instances))
    : option (Interaction Instances) :=
  match state with
  | Some i => if Nat.eqb (List.length (interaction_segs i)) 0 then None else Some i
  | None => None
  end.

(** [subrenderMirror]: the props given to [renderMirrorEvents]; [None] stands
    for [renderMirrorEvents(false)]. *)
Definition subrenderMirror {Instances : Type}
    (eventDrag eventResize : option (Interaction Instances))
    (dateSelectionSegs : list Seg) (forPrint selectMirror : bool) : option MirrorProps :=
  match active eventDrag with
  | Some drag =>
      Some {| mirror_segs := interaction_segs drag;
              isDragging := true; isResizing := false; isSelecting := false;
              mirror_interactingSeg := interactingSeg drag;
              mirror_forPrint := forPrint |}
  | None =>
      match active eventResize with
      | Some resize =>
          Some {| mirror_segs := interaction_segs resize;
                  isDragging := true; isResizing := false; isSelecting := false;
                  mirror_interactingSeg := interactingSeg resize;
                  mirror_forPrint := forPrint |}
      | None =>
          if selectMirror then
            Some {| mirror_segs := dateSelectionSegs;
                    isDragging := false; isResizing := false; isSelecting := true;
                    mirror_interactingSeg := None;
                    mirror_forPrint := forPrint |}
          else None
      end
  end.

(** What [subrender] hands to the highlight renderer, to the foreground event
    renderer ([hiddenInstances]) and to the mirror renderer. *)
Record Subrendered (Instances : Type) : Type := {
  highlight_segs : list Seg;
  hiddenInstances : option Instances;
  mirror : option MirrorProps
}.
Arguments highlight_segs {Instances} _.
Arguments hiddenInstances {Instances} _.
Arguments mirror {Instances} _.

(** [subrender]: the highlight is drawn if there is no mirror for the
    selection; the instances of a running drag, or else of a running resize,
    are hidden. *)
Definition subrender {Instances : Type}
    (eventDrag eventResize : option (Interaction Instances))
    (dateSelectionSegs : list Seg) (forPrint selectMirror : bool) : Subrendered Instances :=
  {| highlight_segs := if selectMirror then [] else dateSelectionSegs;
     hiddenInstances :=
       match active eventDrag with
       | Some drag => Some (affectedInstances drag)
       | None => option_map affectedInstances (active eventResize)
       end;
     mirror := subrenderMirror eventDrag eventResize dateSelectionSegs forPrint selectMirror |}.

(** *** Grouping segments by column *)

(** [arr[i] = v] for an index within the bounds. *)
Fixpoint setAt {A : Type} (arr : list A) (i : nat) (v : A) : list A :=
  match arr, i with
  | [], _ => []
  | _ :: rest, O => v :: rest
  | a :: rest, S i => a :: setAt rest i v
  end.

(** [segsByCol[seg.col].push(seg)]: a [TypeError] when there is no such
    column. *)
Definition pushSeg (segsByCol : list (list Seg)) (seg : Seg) : res (list (list Seg)) :=
  match nth_error segsByCol (col seg) with
  | Some group => Ok (setAt segsByCol (col seg) (group ++ [seg]))
  | None => TypeError
  end.

Fixpoint pushSegs (segsByCol : list (list Seg)) (segs : list Seg) : res (list (list Seg)) :=
  match segs with
  | [] => Ok segsByCol
  | seg :: rest =>
      segsByCol' <- pushSeg segsByCol seg ;;
      pushSegs segsByCol' rest
  end.

(** [groupSegsByCol]: [colCnt] empty groups, then every segment pushed onto
    the group of its column. *)
Definition groupSegsByCol (segs : list Seg) (colCnt : nat) : res (list (list Seg)) :=
  pushSegs (repeat [] colCnt) segs.

(** The groups by column of a list of segments. *)
Definition groupsOf (segs : list Seg) (colCnt : nat) : list (list Seg) :=
  map (fun c => filter (fun seg => Nat.eqb (col seg) c) segs) (seq 0 colCnt).

Section WithEventOrder.

(** [sortEventSegs] of [@fullcalendar/core], with the order specs of the
    context. *)
Variable sortEventSegs : list Seg -> list Seg.

(** The [appendChild] calls of the second loop of [attachSegs]: the index of
    the container and the segment whose element is appended, in order. *)
Fixpoint appendSegs (colIndex : nat) (segsByCol : list (list Seg)) : list (nat * Seg) :=
  match segsByCol with
  | [] => []
  | group :: rest =>
      map (fun seg => (colIndex, seg)) group ++ appendSegs (S colIndex) rest
  end.

(** [attachSegs]: the segments grouped by column, each group sorted, and the
    appends made; there are as many groups as containers. *)
Definition attachSegs (segs : list Seg) (containerEls : nat)
    : res (list (list Seg) * list (nat * Seg)) :=
  segsByCol <- groupSegsByCol segs containerEls ;;
  let segsByCol := map sortEventSegs segsByCol in
  Ok (segsByCol, appendSegs 0 segsByCol).

End WithEventOrder.

(** [detachSegs]: the segments whose elements are removed, in order. *)
Definition detachSegs (segsByCol : list (list Seg)) : list Seg := List.concat segsByCol.

(** ** The specification's formulas *)

Module Spec.

(** Clamp [x] to [[lo, hi]]. *)
Definition clamp (lo hi x : num) : num := JS.Math_max lo (JS.Math_min hi x).

(** [timeToPixel], in the words of the specification (section 4.2). *)
Definition timeToPixel (slat : PositionCache) (minTime slotDuration duration : Duration) : num :=
  let slatCount := JS.ofNat (List.length slat) in
  let coverage := ((milliseconds duration - milliseconds minTime) / milliseconds slotDuration)%num in
  let coverage := clamp (JS.ofZ 0) slatCount coverage in
  let index := clamp (JS.ofZ 0) (slatCount - JS.ofZ 1)%num (JS.Math_floor coverage) in
  let fraction := (coverage - index)%num in
  (JS.toNumber (JS.index (map offset slat) index) +
   JS.toNumber (JS.index (map extent slat) index) * fraction)%num.

(** The cache invariant of the specification (section 3): the regions are
    ordered along the axis and do not overlap. *)
Fixpoint ordered (c : PositionCache) : Prop :=
  match c with
  | [] => True
  | r :: rest =>
      0 <= extent r /\
      match rest with
      | [] => True
      | r' :: _ => farEdge r <= offset r'
      end /\
      ordered rest
  end.

(** The reading of "bottom stored as a distance from the container's bottom
    edge": the container's height less the pixel of the segment's end. *)
Definition distanceFromBottomEdge (containerHeight pixel : num) : num :=
  (containerHeight - pixel)%num.

(** The time range of [hitTest], in the words of the specification
    (section 4.4), for the slat of index [slatIndex] with the given offset and
    extent; the arithmetic up to the snap index is that of doubles. *)
Definition hitTimeRange (slatOffset slatExtent : Q) (slatIndex : nat)
    (snapsPerSlot minTime snapDuration dayStart : num) (y : Q) : num * num :=
  let partial := F64.div (F64.sub (Fin y) (Fin slatOffset)) (Fin slatExtent) in
  let localSnap := JS.Math_floor (F64.mul partial snapsPerSlot) in
  let snapIndex := F64.add (F64.mul (JS.ofNat slatIndex) snapsPerSlot) localSnap in
  let time := (minTime + snapDuration * snapIndex)%num in
  let start := (dayStart + time)%num in
  (start, (start + snapDuration)%num).

End Spec.

(** What one processed segment looks like. *)
Definition processed (startOfDay : DateMarker -> DateMarker) (this : TimeCols)
    (seg seg' : Seg) : Prop :=
  exists (dayDate : DateMarker) (topPx bottomPx : num),
    nth_error (cells this) (col seg) = Some dayDate /\
    topPx = computeDateTop startOfDay this (start seg) (Some dayDate) /\
    bottomPx = JS.Math_max (topPx + timeGridEventMinHeight this)%num
                 (computeDateTop startOfDay this (end_ seg) (Some dayDate)) /\
    top seg' = Some topPx /\
    bottom seg' = Some bottomPx /\
    col seg' = col seg /\ start seg' = start seg /\ end_ seg' = end_ seg /\
    JS.ltb bottomPx (topPx + timeGridEventMinHeight this)%num = false /\
    (JS.isNaN bottomPx = false ->
     JS.leb (topPx + timeGridEventMinHeight this)%num bottomPx = true).

(** ** Sample configurations *)

Module Sample.

Definition minute : Z := 60000.

Definition ms (z : Z) : Duration := {| milliseconds := JS.ofZ z |}.

(** Three slats of one hour: two of 50 pixels and one of 30. *)
Definition slats : PositionCache :=
  [ {| offset := 0; extent := 50 |};
    {| offset := 50; extent := 50 |};
    {| offset := 100; extent := 30 |} ].

(** One column spanning [[0, 100)]. *)
Definition cols : PositionCache := [ {| offset := 0; extent := 100 |} ].

(** One slat spanning [[0, 50)]. *)
Definition oneSlat : PositionCache := [ {| offset := 0; extent := 50 |} ].

Definition grid (slatCache : PositionCache) : TimeCols :=
  {| slotDuration := ms (60 * minute);
     snapDuration := ms (15 * minute);
     snapsPerSlot := JS.ofZ 4;
     colPositions := cols;
     slatPositions := slatCache;
     colContainerEls := 1;
     cells := [JS.ofZ 0];
     minTime := ms 0;
     timeGridEventMinHeight := JS.ofZ 0 |}.

Definition seg (from to : Z) : Seg :=
  {| col := 0; start := JS.ofZ from; end_ := JS.ofZ to; top := None; bottom := None |}.

(** The start of the day in UTC. *)
Definition startOfDay (m : DateMarker) : DateMarker :=
  match m with
  | Fin q => JS.ofZ (86400000 * (Qfloor q / 86400000))
  | _ => NaN
  end.

End Sample.

(** * Properties *)

(** ** Numbers *)

Module JSFacts.

Lemma Qeq_bool_false (a b : Q) : Qeq_bool a b = false <-> ~ a == b.
Proof.
  split.
  - intros H E. apply Qeq_bool_iff in E. congruence.
  - intros H. destruct (Qeq_bool a b) eqn:E; [|reflexivity].
    apply Qeq_bool_iff in E. contradiction.
Qed.

Lemma Qle_bool_false (a b : Q) : Qle_bool a b = false <-> b < a.
Proof.
  split.
  - intros H. apply Qnot_le_lt. intros E. apply Qle_bool_iff in E. congruence.
  - intros H. destruct (Qle_bool a b) eqn:E; [|reflexivity].
    apply Qle_bool_iff in E. lra.
Qed.

(** Turns the boolean tests on rationals of the goal and of the context into
    propositions. *)
Ltac qprops :=
  repeat match goal with
  | H : Qeq_bool _ _ = true |- _ => apply Qeq_bool_iff in H
  | H : Qeq_bool _ _ = false |- _ => apply Qeq_bool_false in H
  | H : Qle_bool _ _ = true |- _ => apply Qle_bool_iff in H
  | H : Qle_bool _ _ = false |- _ => apply Qle_bool_false in H
  | |- Qeq_bool _ _ = true => apply Qeq_bool_iff
  | |- Qeq_bool _ _ = false => apply Qeq_bool_false
  | |- Qle_bool _ _ = true => apply Qle_bool_iff
  | |- Qle_bool _ _ = false => apply Qle_bool_false
  end.

Ltac qcases :=
  repeat match goal with
  | |- context [Qeq_bool ?a ?b] => destruct (Qeq_bool a b) eqn:?
  | |- context [Qle_bool ?a ?b] => destruct (Qle_bool a b) eqn:?
  end; qprops.

Lemma eqv_refl (a : num) : (a == a)%num.
Proof. destruct a; simpl; auto. reflexivity. Qed.

Lemma eqv_sym (a b : num) : (a == b)%num -> (b == a)%num.
Proof. destruct a, b; simpl; auto. intros H. symmetry. exact H. Qed.

Lemma eqv_trans (a b c : num) : (a == b)%num -> (b == c)%num -> (a == c)%num.
Proof.
  destruct a, b, c; simpl; auto; try contradiction.
  intros H1 H2. rewrite H1. exact H2.
Qed.

#[export] Instance eqv_Equivalence : Equivalence JS.eqv.
Proof.
  constructor.
  - exact eqv_refl.
  - exact eqv_sym.
  - exact eqv_trans.
Qed.

#[export] Instance Fin_Proper : Proper (Qeq ==> JS.eqv) Fin.
Proof. intros p q H. exact H. Qed.

#[export] Instance neg_Proper : Proper (JS.eqv ==> JS.eqv) JS.neg.
Proof. intros [] [] H; simpl in *; auto. rewrite H. reflexivity. Qed.

#[export] Instance add_Proper : Proper (JS.eqv ==> JS.eqv ==> JS.eqv) JS.add.
Proof.
  intros [] [] H1 [] [] H2; simpl in *; auto; try contradiction.
  rewrite H1, H2. reflexivity.
Qed.

#[export] Instance sub_Proper : Proper (JS.eqv ==> JS.eqv ==> JS.eqv) JS.sub.
Proof. intros a a' H1 b b' H2. unfold JS.sub. rewrite H1, H2. reflexivity. Qed.

Lemma signedInf_eqv (p q : Q) : p == q -> JS.signedInf p = JS.signedInf q.
Proof. intros H. unfold JS.signedInf. qcases; try reflexivity; lra. Qed.

#[export] Instance mul_Proper : Proper (JS.eqv ==> JS.eqv ==> JS.eqv) JS.mul.
Proof.
  intros [] [] H1 [] [] H2; simpl in *; auto; try contradiction.
  - rewrite (signedInf_eqv (- q) (- q0)); [reflexivity | lra].
  - rewrite (signedInf_eqv q q0); [reflexivity | lra].
  - rewrite (signedInf_eqv (- q) (- q0)); [reflexivity | lra].
  - rewrite (signedInf_eqv q q0); [reflexivity | lra].
  - rewrite H1, H2. reflexivity.
Qed.

#[export] Instance div_Proper : Proper (JS.eqv ==> JS.eqv ==> JS.eqv) JS.div.
Proof.
  intros [] [] H1 [] [] H2; simpl in *; auto; try contradiction.
  - qcases; simpl; auto; lra.
  - qcases; simpl; auto; lra.
  - reflexivity.
  - reflexivity.
  - qcases; try lra.
    + rewrite (signedInf_eqv q q0); [reflexivity | lra].
    + simpl. rewrite H1, H2. reflexivity.
Qed.

#[export] Instance leb_Proper : Proper (JS.eqv ==> JS.eqv ==> eq) JS.leb.
Proof.
  intros [] [] H1 [] [] H2; simpl in *; auto; try contradiction.
  qcases; try reflexivity; lra.
Qed.

#[export] Instance ltb_Proper : Proper (JS.eqv ==> JS.eqv ==> eq) JS.ltb.
Proof.
  intros [] [] H1 [] [] H2; simpl in *; auto; try contradiction.
  qcases; try reflexivity; lra.
Qed.

#[export] Instance Math_max_Proper : Proper (JS.eqv ==> JS.eqv ==> JS.eqv) JS.Math_max.
Proof.
  intros [] [] H1 [] [] H2; simpl in *; auto; try contradiction.
  qcases; simpl; auto; lra.
Qed.

#[export] Instance Math_min_Proper : Proper (JS.eqv ==> JS.eqv ==> JS.eqv) JS.Math_min.
Proof.
  intros [] [] H1 [] [] H2; simpl in *; auto; try contradiction.
  qcases; simpl; auto; lra.
Qed.

#[export] Instance Math_floor_Proper : Proper (JS.eqv ==> JS.eqv) JS.Math_floor.
Proof.
  intros [] [] H; simpl in *; auto.
  rewrite H. reflexivity.
Qed.

Lemma index_eqv {A : Type} (arr : list A) (i j : num) :
  (i == j)%num -> JS.index arr i = JS.index arr j.
Proof.
  destruct i, j; simpl; auto; try contradiction.
  intros H. rewrite (Qfloor_comp _ _ H).
  assert (E : Qeq_bool q (inject_Z (Qfloor q0)) = Qeq_bool q0 (inject_Z (Qfloor q0))).
  { qcases; try reflexivity; lra. }
  rewrite E. reflexivity.
Qed.

#[export] Instance index_Proper {A : Type} (arr : list A) : Proper (JS.eqv ==> eq) (JS.index arr).
Proof. intros i j H. apply index_eqv. exact H. Qed.

End JSFacts.
Import JSFacts.

(** ** Option processing *)

Lemma isInt_spec (q : Q) : isInt q = true <-> exists k : Z, q == inject_Z k.
Proof.
  unfold isInt. rewrite Qeq_bool_iff. split.
  - intros H. exists (Qfloor q). exact H.
  - intros [k H]. rewrite H at 2. rewrite Qfloor_Z. exact H.
Qed.

(** What the division of finite spans returns, in arithmetic terms. *)
Lemma wholeDivideDurations_None (n d : Duration) (s p : Q) :
  milliseconds n = Fin s -> milliseconds d = Fin p ->
  (wholeDivideDurations n d = None <-> p == 0 \/ ~ exists k : Z, s == inject_Z k * p).
Proof.
  intros Hn Hd. unfold wholeDivideDurations. rewrite Hn, Hd.
  destruct (Qeq_bool p 0) eqn:Ep; qprops.
  - split; auto.
  - destruct (isInt (s / p)) eqn:Ei.
    + split; [discriminate|].
      intros [H | H]; [contradiction|].
      exfalso. apply H. apply isInt_spec in Ei. destruct Ei as [k Hk].
      exists k. rewrite <- Hk. field. exact Ep.
    + split; auto. intros _. right. intros [k Hk].
      assert (E : isInt (s / p) = true).
      { apply isInt_spec. exists k. rewrite Hk. field. exact Ep. }
      congruence.
Qed.

Lemma wholeDivideDurations_Some (n d : Duration) (r : num) :
  wholeDivideDurations n d = Some r ->
  exists s p, milliseconds n = Fin s /\ milliseconds d = Fin p /\ ~ p == 0 /\
              r = Fin (s / p) /\ s / p == inject_Z (Qfloor (s / p)).
Proof.
  unfold wholeDivideDurations.
  destruct (milliseconds n) as [| | |s]; try discriminate.
  destruct (milliseconds d) as [| | |p]; try discriminate.
  destruct (Qeq_bool p 0) eqn:Ep; [discriminate|].
  destruct (isInt (s / p)) eqn:Ei; [|discriminate].
  intros H. injection H as <-. exists s, p. qprops.
  unfold isInt in Ei. qprops. auto.
Qed.

Lemma processOptions_fallback (this : TimeCols) (options : Options) :
  wholeDivideDurations (createDuration (opt_slotDuration options))
                       (requestedSnapDuration options) = None ->
  snapDuration (_processOptions this options) = createDuration (opt_slotDuration options) /\
  snapsPerSlot (_processOptions this options) = JS.ofZ 1.
Proof.
  intros H. unfold _processOptions. rewrite H. split; reflexivity.
Qed.

(** C1, as the code has it: when the snap duration does not evenly divide the
    slot duration (also when the division is not defined at all), option
    processing falls back to [snapDuration = slotDuration] and
    [snapsPerSlot = 1]; it is a total function, so nothing is raised.  The
    resulting [snapsPerSlot] is an integer at least 1 whenever the slot and
    the snap duration are both positive spans. *)
Theorem processOptions_snapsPerSlot (this : TimeCols) (options : Options) :
  let slot := createDuration (opt_slotDuration options) in
  let snap := requestedSnapDuration options in
  let this' := _processOptions this options in
  slotDuration this' = slot /\
  (wholeDivideDurations slot snap = None ->
   snapDuration this' = slot /\ snapsPerSlot this' = JS.ofZ 1) /\
  (forall s p : Q,
     milliseconds slot = Fin s -> milliseconds snap = Fin p ->
     (~ exists k : Z, s == inject_Z k * p) ->
     snapDuration this' = slot /\ snapsPerSlot this' = JS.ofZ 1) /\
  (forall s p : Q,
     milliseconds slot = Fin s -> milliseconds snap = Fin p ->
     0 < s -> 0 < p ->
     exists k : Z, (1 <= k)%Z /\ (snapsPerSlot this' == JS.ofZ k)%num).
Proof.
  cbv zeta. repeat split.
  - unfold _processOptions.
    destruct (wholeDivideDurations _ _); reflexivity.
  - apply processOptions_fallback; assumption.
  - apply processOptions_fallback; assumption.
  - apply processOptions_fallback.
    apply (wholeDivideDurations_None _ _ s p); auto.
  - apply processOptions_fallback.
    apply (wholeDivideDurations_None _ _ s p); auto.
  - intros s p Hs Hp Hs0 Hp0. unfold _processOptions.
    destruct (wholeDivideDurations _ _) as [r|] eqn:E.
    + apply wholeDivideDurations_Some in E.
      destruct E as (s' & p' & Hs' & Hp' & Hnz & -> & Hint).
      rewrite Hs in Hs'. rewrite Hp in Hp'.
      injection Hs' as <-. injection Hp' as <-.
      exists (Qfloor (s / p)). split.
      * assert (Hpos : 0 < s / p).
        { apply Qlt_shift_div_l; [exact Hp0 | rewrite Qmult_0_l; exact Hs0]. }
        rewrite Hint in Hpos.
        assert (Hz : (0 < Qfloor (s / p))%Z).
        { rewrite Zlt_Qlt. exact Hpos. }
        lia.
      * simpl. exact Hint.
    + exists 1%Z. split; [lia|]. simpl. reflexivity.
Qed.

(** The theorem at the degenerate configuration of the specification:
    a slot of 45 minutes and a snap of 20 minutes. *)
Lemma processOptions_snapsPerSlot_witness :
  let options := {| opt_slotDuration := InParsed (Sample.ms (45 * Sample.minute));
                    opt_snapDuration := Some (InParsed (Sample.ms (20 * Sample.minute))) |} in
  let this' := _processOptions (Sample.grid Sample.slats) options in
  snapDuration this' = Sample.ms (45 * Sample.minute) /\
  snapsPerSlot this' = JS.ofZ 1 /\
  exists k : Z, (1 <= k)%Z /\ (snapsPerSlot this' == JS.ofZ k)%num.
Proof.
  cbv zeta.
  pose proof (processOptions_snapsPerSlot (Sample.grid Sample.slats)
    {| opt_slotDuration := InParsed (Sample.ms (45 * Sample.minute));
       opt_snapDuration := Some (InParsed (Sample.ms (20 * Sample.minute))) |}) as H.
  cbv zeta in H. destruct H as (_ & Hnone & _ & Hpos).
  destruct (Hnone eq_refl) as [H1 H2].
  split; [exact H1|]. split; [exact H2|].
  apply (Hpos (inject_Z (45 * Sample.minute)) (inject_Z (20 * Sample.minute)));
    reflexivity.
Defined.

(** C1 as stated fails: a zero slot duration, or a negative snap duration,
    divides evenly and leaves [snapsPerSlot] below 1. *)
Lemma processOptions_snapsPerSlot_below_one :
  let zeroSlot := {| opt_slotDuration := InParsed (Sample.ms 0);
                     opt_snapDuration := Some (InParsed (Sample.ms (15 * Sample.minute))) |} in
  let negativeSnap := {| opt_slotDuration := InParsed (Sample.ms (60 * Sample.minute));
                         opt_snapDuration := Some (InParsed (Sample.ms (-15 * Sample.minute))) |} in
  let this0 := _processOptions (Sample.grid Sample.slats) zeroSlot in
  let this1 := _processOptions (Sample.grid Sample.slats) negativeSnap in
  (snapsPerSlot this0 == JS.ofZ 0)%num /\
  (snapsPerSlot this1 == JS.ofZ (-4))%num /\
  ~ (exists k : Z, (1 <= k)%Z /\ (snapsPerSlot this0 == JS.ofZ k)%num) /\
  ~ (exists k : Z, (1 <= k)%Z /\ (snapsPerSlot this1 == JS.ofZ k)%num).
Proof.
  cbv zeta.
  assert (H0 : (snapsPerSlot (_processOptions (Sample.grid Sample.slats)
            {| opt_slotDuration := InParsed (Sample.ms 0);
               opt_snapDuration := Some (InParsed (Sample.ms (15 * Sample.minute))) |})
          == JS.ofZ 0)%num) by reflexivity.
  assert (H1 : (snapsPerSlot (_processOptions (Sample.grid Sample.slats)
            {| opt_slotDuration := InParsed (Sample.ms (60 * Sample.minute));
               opt_snapDuration := Some (InParsed (Sample.ms (-15 * Sample.minute))) |})
          == JS.ofZ (-4))%num) by reflexivity.
  split; [exact H0|]. split; [exact H1|]. split.
  - intros (k & Hk & E). rewrite H0 in E. simpl in E.
    rewrite inject_Z_injective in E. lia.
  - intros (k & Hk & E). rewrite H1 in E. simpl in E.
    rewrite inject_Z_injective in E. lia.
Qed.

(** ** Time to pixel *)

Lemma Math_max_Fin (a b : Q) :
  JS.Math_max (Fin a) (Fin b) = Fin (if Qle_bool a b then b else a).
Proof. simpl. destruct (Qle_bool a b); reflexivity. Qed.

Lemma Math_min_Fin (a b : Q) :
  JS.Math_min (Fin a) (Fin b) = Fin (if Qle_bool a b then a else b).
Proof. simpl. destruct (Qle_bool a b); reflexivity. Qed.

Lemma ofNat_nonneg (n : nat) : 0 <= inject_Z (Z.of_nat n).
Proof. change 0 with (inject_Z 0). rewrite <- Zle_Qle. lia. Qed.

Lemma index_ofZ {A : Type} (arr : list A) (i : Z) :
  (0 <= i)%Z -> JS.index arr (JS.ofZ i) = nth_error arr (Z.to_nat i).
Proof.
  intros H. unfold JS.ofZ, JS.index. rewrite Qfloor_Z.
  assert (E1 : Qeq_bool (inject_Z i) (inject_Z i) = true) by (qprops; reflexivity).
  assert (E2 : (0 <=? i)%Z = true) by (apply Z.leb_le; exact H).
  rewrite E1, E2. reflexivity.
Qed.

Lemma index_negative {A : Type} (arr : list A) (i : Z) :
  (i < 0)%Z -> JS.index arr (JS.ofZ i) = None.
Proof.
  intros H. unfold JS.ofZ, JS.index. rewrite Qfloor_Z.
  assert (E2 : (0 <=? i)%Z = false) by (apply Z.leb_gt; exact H).
  rewrite E2, andb_false_r. reflexivity.
Qed.

Lemma index_nil {A : Type} (i : num) : JS.index (@nil A) i = None.
Proof.
  destruct i; simpl; auto.
  destruct (_ && _); [|reflexivity].
  destruct (Z.to_nat (Qfloor q)); reflexivity.
Qed.

Section TimeTop.

Variable this : TimeCols.
Variable duration : Duration.
Variables a m s : Q.
Hypothesis Hduration : milliseconds duration = Fin a.
Hypothesis HminTime : milliseconds (minTime this) = Fin m.
Hypothesis HslotDuration : milliseconds (slotDuration this) = Fin s.
Hypothesis Hslot : ~ s == 0.

Let len : Z := Z.of_nat (slatEls_length this).

(** With finite times and a non-zero slot duration the coverage is the
    number of slots [(a - m) / s], saturated to [[0, len]]. *)
Lemma slatCoverageOf_finite :
  exists c : Q,
    slatCoverageOf this duration = Fin c /\
    0 <= c /\ c <= inject_Z len /\
    ((a - m) / s <= 0 -> c == 0) /\
    (inject_Z len <= (a - m) / s -> c == inject_Z len) /\
    (0 <= (a - m) / s -> (a - m) / s <= inject_Z len -> c == (a - m) / s).
Proof.
  pose proof (ofNat_nonneg (slatEls_length this)) as Hlen. fold len in Hlen.
  unfold slatCoverageOf, asRoughMs, JS.ofNat, JS.ofZ.
  rewrite Hduration, HminTime, HslotDuration. fold len.
  simpl JS.sub. unfold JS.sub, JS.neg, JS.add, JS.div.
  apply Qeq_bool_false in Hslot. rewrite Hslot.
  rewrite Math_max_Fin, Math_min_Fin.
  eexists. split; [reflexivity|].
  change (inject_Z 0) with 0.
  assert (E : (a + - m) / s == (a - m) / s) by reflexivity.
  rewrite <- E.
  destruct (Qle_bool 0 ((a + - m) / s)) eqn:E1;
    destruct (Qle_bool (inject_Z len) _) eqn:E2;
    qprops; repeat split; intros; lra.
Qed.

(** With at least one slat the index is the whole part of the coverage,
    capped by the last slat. *)
Lemma slatIndexOf_finite (c : Q) :
  slatCoverageOf this duration = Fin c ->
  0 <= c -> c <= inject_Z len -> (1 <= len)%Z ->
  let i := Z.min (Qfloor c) (len - 1) in
  (slatIndexOf this duration == JS.ofZ i)%num /\ (0 <= i <= len - 1)%Z.
Proof.
  intros Hc H0 H1 Hlen i.
  assert (Hfloor : (0 <= Qfloor c)%Z).
  { change 0%Z with (Qfloor 0). apply Qfloor_resp_le. exact H0. }
  split; [|subst i; lia].
  unfold slatIndexOf. rewrite Hc. unfold JS.ofNat, JS.ofZ. fold len.
  simpl JS.Math_floor. unfold JS.sub, JS.neg, JS.add.
  rewrite Math_min_Fin. simpl.
  assert (E : inject_Z len + - inject_Z 1 == inject_Z (len - 1)).
  { unfold Z.sub. rewrite inject_Z_plus, inject_Z_opp. reflexivity. }
  destruct (Qle_bool _ _) eqn:Eb; qprops.
  - rewrite E in Eb. rewrite <- Zle_Qle in Eb.
    subst i. rewrite Z.min_l by exact Eb. reflexivity.
  - rewrite E in Eb. rewrite <- Zlt_Qlt in Eb.
    subst i. rewrite Z.min_r by lia. exact E.
Qed.

(** The pixel of a finite time, with at least one slat: linear interpolation
    within the slat of index [i]. *)
Lemma computeTimeTop_finite :
  (1 <= len)%Z ->
  exists (c : Q) (r : Region),
    let i := Z.min (Qfloor c) (len - 1) in
    slatCoverageOf this duration = Fin c /\
    0 <= c /\ c <= inject_Z len /\
    ((a - m) / s <= 0 -> c == 0) /\
    (inject_Z len <= (a - m) / s -> c == inject_Z len) /\
    (0 <= (a - m) / s -> (a - m) / s <= inject_Z len -> c == (a - m) / s) /\
    (slatIndexOf this duration == JS.ofZ i)%num /\
    (0 <= i <= len - 1)%Z /\
    nth_error (slatPositions this) (Z.to_nat i) = Some r /\
    (computeTimeTop this duration == Fin (offset r + extent r * (c - inject_Z i)))%num.
Proof.
  intros Hlen.
  destruct slatCoverageOf_finite as (c & Hc & H0 & H1 & Hlo & Hhi & Hmid).
  destruct (slatIndexOf_finite c Hc H0 H1 Hlen) as [Hi Hrange].
  set (i := Z.min (Qfloor c) (len - 1)) in *.
  assert (Hnth : exists r, nth_error (slatPositions this) (Z.to_nat i) = Some r).
  { destruct (nth_error (slatPositions this) (Z.to_nat i)) as [r|] eqn:E.
    - exists r. reflexivity.
    - apply nth_error_None in E. unfold len, slatEls_length in Hrange. lia. }
  destruct Hnth as [r Hr].
  exists c, r. cbv zeta. fold i.
  repeat (split; [assumption|]).
  unfold computeTimeTop, getHeight, tops.
  rewrite (index_eqv _ _ _ Hi), (index_eqv (map extent _) _ _ Hi).
  rewrite !index_ofZ by lia.
  rewrite !nth_error_map, Hr. simpl option_map. simpl JS.toNumber.
  rewrite Hc, Hi. simpl. reflexivity.
Qed.

End TimeTop.

#[export] Instance clamp_Proper :
  Proper (JS.eqv ==> JS.eqv ==> JS.eqv ==> JS.eqv) Spec.clamp.
Proof.
  intros lo lo' Hlo hi hi' Hhi x x' Hx. unfold Spec.clamp.
  rewrite Hlo, Hhi, Hx. reflexivity.
Qed.

#[export] Instance toNumber_Proper : Proper (eq ==> JS.eqv) JS.toNumber.
Proof. intros v w ->. reflexivity. Qed.

(** The two clamps of the code, against the clamps of the specification. *)
Lemma coverage_clamp (n : nat) (x : num) :
  (JS.Math_min (JS.ofNat n) (JS.Math_max (JS.ofZ 0) x) ==
   Spec.clamp (JS.ofZ 0) (JS.ofNat n) x)%num.
Proof.
  pose proof (ofNat_nonneg n) as Hn.
  unfold Spec.clamp, JS.ofNat, JS.ofZ. change (inject_Z 0) with 0.
  destruct x as [| | |x].
  - reflexivity.
  - simpl. destruct (Qle_bool (inject_Z (Z.of_nat n)) 0) eqn:E; qprops; simpl; lra.
  - simpl. destruct (Qle_bool 0 (inject_Z (Z.of_nat n))) eqn:E; qprops; simpl; lra.
  - rewrite !Math_max_Fin, !Math_min_Fin, Math_max_Fin.
    destruct (Qle_bool 0 x) eqn:E1;
      destruct (Qle_bool (inject_Z (Z.of_nat n)) x) eqn:E2; qprops.
    all: qcases; simpl; lra.
Qed.

Lemma coverage_range (n : nat) (x : num) :
  let c := JS.Math_min (JS.ofNat n) (JS.Math_max (JS.ofZ 0) x) in
  c = NaN \/ exists q, c = Fin q /\ 0 <= q /\ q <= inject_Z (Z.of_nat n).
Proof.
  pose proof (ofNat_nonneg n) as Hn. cbv zeta.
  unfold JS.ofNat, JS.ofZ. change (inject_Z 0) with 0.
  destruct x as [| | |x].
  - left. reflexivity.
  - right. simpl. destruct (Qle_bool (inject_Z (Z.of_nat n)) 0) eqn:E; qprops;
      eexists; (split; [reflexivity|]); lra.
  - right. simpl. eexists. split; [reflexivity|]. lra.
  - right. rewrite Math_max_Fin, Math_min_Fin. eexists. split; [reflexivity|].
    destruct (Qle_bool 0 x) eqn:E1; qcases; lra.
Qed.

Lemma index_clamp (n : nat) (c : Q) :
  0 <= c -> (1 <= n)%nat ->
  (JS.Math_min (JS.Math_floor (Fin c)) (JS.ofNat n - JS.ofZ 1) ==
   Spec.clamp (JS.ofZ 0) (JS.ofNat n - JS.ofZ 1) (JS.Math_floor (Fin c)))%num.
Proof.
  intros Hc Hn.
  assert (Hfloor : 0 <= inject_Z (Qfloor c)).
  { change 0 with (inject_Z 0). rewrite <- Zle_Qle.
    change 0%Z with (Qfloor 0). apply Qfloor_resp_le. exact Hc. }
  assert (Hlast : 0 <= inject_Z (Z.of_nat n) + - inject_Z 1).
  { assert (H1 : inject_Z 1 <= inject_Z (Z.of_nat n)) by (rewrite <- Zle_Qle; lia).
    lra. }
  unfold Spec.clamp, JS.ofNat, JS.ofZ. simpl JS.Math_floor.
  unfold JS.sub, JS.neg, JS.add. change (inject_Z 0) with 0.
  rewrite !Math_min_Fin, Math_max_Fin.
  destruct (Qle_bool (inject_Z (Qfloor c)) _) eqn:E1;
    destruct (Qle_bool (inject_Z (Z.of_nat n) + - inject_Z 1) _) eqn:E2; qprops.
  all: qcases; simpl; lra.
Qed.

(** The refinement behind C2: on every state and every duration, finite or
    not, [computeTimeTop] returns the number the formula of the specification
    describes. *)
Lemma computeTimeTop_refines (this : TimeCols) (duration : Duration) :
  (computeTimeTop this duration ==
   Spec.timeToPixel (slatPositions this) (minTime this) (slotDuration this) duration)%num.
Proof.
  unfold computeTimeTop, Spec.timeToPixel, slatIndexOf, getHeight, tops.
  unfold slatCoverageOf, asRoughMs, slatEls_length.
  set (n := List.length (slatPositions this)).
  set (x := (_ / _)%num).
  cbv zeta.
  destruct (slatPositions this) as [|r0 rest] eqn:Hslats.
  - simpl map. rewrite !index_nil. reflexivity.
  - assert (Hn : (1 <= n)%nat) by (subst n; simpl; lia).
    rewrite <- (coverage_clamp n x).
    destruct (coverage_range n x) as [E | (c & E & H0 & H1)]; rewrite E.
    + reflexivity.
    + rewrite <- (index_clamp n c H0 Hn). reflexivity.
Qed.

Lemma div_nonpos (x s : Q) : 0 < s -> x <= 0 -> x / s <= 0.
Proof. intros Hs Hx. apply Qle_shift_div_r; [exact Hs | lra]. Qed.

Lemma div_nonneg (x s : Q) : 0 < s -> 0 <= x -> 0 <= x / s.
Proof. intros Hs Hx. apply Qle_shift_div_l; [exact Hs | lra]. Qed.

Lemma div_ge (x s n : Q) : 0 < s -> n * s <= x -> n <= x / s.
Proof. intros Hs Hx. apply Qle_shift_div_l; [exact Hs | exact Hx]. Qed.

Lemma div_le (x s n : Q) : 0 < s -> x <= n * s -> x / s <= n.
Proof. intros Hs Hx. apply Qle_shift_div_r; [exact Hs | exact Hx]. Qed.

Lemma div_mono (x y s : Q) : 0 < s -> x <= y -> x / s <= y / s.
Proof.
  intros Hs H. unfold Qdiv. apply Qmult_le_compat_r; [exact H|].
  apply Qlt_le_weak, Qinv_lt_0_compat. exact Hs.
Qed.

Lemma inject_Z_pred (z : Z) : inject_Z (z - 1) == inject_Z z - 1.
Proof. unfold Z.sub. rewrite inject_Z_plus, inject_Z_opp. reflexivity. Qed.

(** C2: on every state and for every duration, [computeTimeTop] computes
    the formula of the specification: the coverage
    [(d - minTime) / slotDuration] clamped to [[0, slatCount]], the index
    [floor coverage] clamped to [[0, slatCount - 1]], the fraction
    [coverage - index] and the result
    [offset[index] + extent[index] * fraction].  With finite times, a positive
    slot duration and at least one slat, a duration at or before [minTime]
    maps to the top of the first slat (pixel 0 when the first slat starts at
    the origin), a duration at or past the end of the slats maps to the bottom
    of the last slat, and the result is always a finite number. *)
Theorem computeTimeTop_spec (this : TimeCols) (duration : Duration) :
  (computeTimeTop this duration ==
   Spec.timeToPixel (slatPositions this) (minTime this) (slotDuration this) duration)%num /\
  (forall (a m s : Q) (first : Region) (rest : PositionCache),
     milliseconds duration = Fin a ->
     milliseconds (minTime this) = Fin m ->
     milliseconds (slotDuration this) = Fin s ->
     0 < s ->
     slatPositions this = first :: rest ->
     a <= m ->
     (computeTimeTop this duration == Fin (offset first))%num /\
     (offset first == 0 -> (computeTimeTop this duration == JS.ofZ 0)%num)) /\
  (forall (a m s : Q) (front : PositionCache) (last : Region),
     milliseconds duration = Fin a ->
     milliseconds (minTime this) = Fin m ->
     milliseconds (slotDuration this) = Fin s ->
     0 < s ->
     slatPositions this = front ++ [last] ->
     m + inject_Z (Z.of_nat (slatEls_length this)) * s <= a ->
     (computeTimeTop this duration == Fin (farEdge last))%num) /\
  (forall a m s : Q,
     milliseconds duration = Fin a ->
     milliseconds (minTime this) = Fin m ->
     milliseconds (slotDuration this) = Fin s ->
     ~ s == 0 ->
     slatPositions this <> [] ->
     JS.isFinite (computeTimeTop this duration) = true).
Proof.
  split; [apply computeTimeTop_refines|]. split; [|split].
  - intros a m s first rest Ha Hm Hs Hpos Hslats Hbefore.
    assert (Hnz : ~ s == 0) by lra.
    assert (Hlen : (1 <= Z.of_nat (slatEls_length this))%Z).
    { unfold slatEls_length. rewrite Hslats. simpl. lia. }
    destruct (computeTimeTop_finite this duration a m s Ha Hm Hs Hnz Hlen)
      as (c & r & _ & _ & _ & Hlo & _ & _ & _ & _ & Hr & Htop).
    assert (Hc : c == 0) by (apply Hlo, div_nonpos; [exact Hpos | lra]).
    rewrite (Qfloor_comp _ _ Hc) in Hr, Htop.
    change (Qfloor 0) with 0%Z in Hr, Htop.
    rewrite Z.min_l in Hr, Htop by lia.
    rewrite Hslats in Hr. simpl in Hr. injection Hr as <-.
    assert (E : (computeTimeTop this duration == Fin (offset first))%num).
    { rewrite Htop. simpl. rewrite Hc. change (inject_Z 0) with 0. ring. }
    split; [exact E|].
    intros H0. rewrite E. simpl. exact H0.
  - intros a m s front last Ha Hm Hs Hpos Hslats Hafter.
    assert (Hnz : ~ s == 0) by lra.
    assert (Hlen : (1 <= Z.of_nat (slatEls_length this))%Z).
    { unfold slatEls_length. rewrite Hslats, length_app. simpl. lia. }
    destruct (computeTimeTop_finite this duration a m s Ha Hm Hs Hnz Hlen)
      as (c & r & _ & _ & _ & _ & Hhi & _ & _ & _ & Hr & Htop).
    set (len := Z.of_nat (slatEls_length this)) in *.
    assert (Hc : c == inject_Z len) by (apply Hhi, div_ge; [exact Hpos | lra]).
    rewrite (Qfloor_comp _ _ Hc), Qfloor_Z in Hr, Htop.
    rewrite Z.min_r in Hr, Htop by lia.
    assert (Hi : Z.to_nat (len - 1) = List.length front).
    { subst len. unfold slatEls_length. rewrite Hslats, length_app. simpl. lia. }
    rewrite Hi, Hslats, nth_error_app2, Nat.sub_diag in Hr by lia.
    simpl in Hr. injection Hr as <-.
    rewrite Htop. simpl. unfold farEdge. rewrite Hc, inject_Z_pred. ring.
  - intros a m s Ha Hm Hs Hnz Hslats.
    assert (Hlen : (1 <= Z.of_nat (slatEls_length this))%Z).
    { unfold slatEls_length. destruct (slatPositions this); [congruence | simpl; lia]. }
    destruct (computeTimeTop_finite this duration a m s Ha Hm Hs Hnz Hlen)
      as (c & r & _ & _ & _ & _ & _ & _ & _ & _ & _ & Htop).
    destruct (computeTimeTop this duration); simpl in Htop; try contradiction.
    reflexivity.
Qed.

(** The theorem on the sample grid of three slats: before [minTime], past the
    last slat, and in between. *)
Lemma computeTimeTop_spec_witness :
  (computeTimeTop (Sample.grid Sample.slats) (Sample.ms (-5)) == JS.ofZ 0)%num /\
  (computeTimeTop (Sample.grid Sample.slats) (Sample.ms (1500 * Sample.minute)) == JS.ofZ 130)%num /\
  JS.isFinite (computeTimeTop (Sample.grid Sample.slats) (Sample.ms (150 * Sample.minute))) = true.
Proof.
  split; [|split].
  - destruct (computeTimeTop_spec (Sample.grid Sample.slats) (Sample.ms (-5)))
      as (_ & H & _).
    refine (proj2 (H (inject_Z (-5)) (inject_Z 0) (inject_Z (60 * Sample.minute))
                     _ _ eq_refl eq_refl eq_refl _ eq_refl _) _);
      reflexivity || (vm_compute; discriminate).
  - destruct (computeTimeTop_spec (Sample.grid Sample.slats)
                (Sample.ms (1500 * Sample.minute))) as (_ & _ & H & _).
    refine (H (inject_Z (1500 * Sample.minute)) (inject_Z 0)
              (inject_Z (60 * Sample.minute))
              [ {| offset := 0; extent := 50 |}; {| offset := 50; extent := 50 |} ]
              {| offset := 100; extent := 30 |}
              eq_refl eq_refl eq_refl _ eq_refl _);
      reflexivity || (vm_compute; discriminate).
  - destruct (computeTimeTop_spec (Sample.grid Sample.slats)
                (Sample.ms (150 * Sample.minute))) as (_ & _ & _ & H).
    refine (H (inject_Z (150 * Sample.minute)) (inject_Z 0)
              (inject_Z (60 * Sample.minute)) eq_refl eq_refl eq_refl _ _);
      [vm_compute; discriminate | discriminate].
Defined.



(** ** Monotonicity *)

Lemma ordered_tail (r : Region) (c : PositionCache) :
  Spec.ordered (r :: c) -> Spec.ordered c.
Proof. intros (_ & _ & H). exact H. Qed.

Lemma ordered_extent (c : PositionCache) :
  Spec.ordered c ->
  forall (i : nat) (r : Region), nth_error c i = Some r -> 0 <= extent r.
Proof.
  induction c as [|r0 rest IH]; intros Hord i r Hr.
  - destruct i; discriminate.
  - destruct i as [|i]; simpl in Hr.
    + injection Hr as <-. apply Hord.
    + apply (IH (ordered_tail _ _ Hord) i r Hr).
Qed.

Lemma ordered_head (c : PositionCache) :
  forall r0 : Region,
    Spec.ordered (r0 :: c) ->
    forall (j : nat) (r : Region), nth_error c j = Some r -> farEdge r0 <= offset r.
Proof.
  induction c as [|r1 rest IH]; intros r0 Hord j r Hr.
  - destruct j; discriminate.
  - destruct Hord as (_ & Hstep & Hrest).
    destruct j as [|j]; simpl in Hr.
    + injection Hr as <-. exact Hstep.
    + pose proof (IH r1 Hrest j r Hr) as Hle.
      assert (H1 : 0 <= extent r1) by apply Hrest.
      unfold farEdge in *. lra.
Qed.

(** In an ordered cache a region ends before every later region starts. *)
Lemma ordered_chain (c : PositionCache) :
  Spec.ordered c ->
  forall (i j : nat) (r r' : Region),
    nth_error c i = Some r -> nth_error c j = Some r' -> (i < j)%nat ->
    farEdge r <= offset r'.
Proof.
  induction c as [|r0 rest IH]; intros Hord i j r r' Hr Hr' Hlt.
  - destruct i; discriminate.
  - destruct j as [|j]; [lia|]. simpl in Hr'.
    destruct i as [|i]; simpl in Hr.
    + injection Hr as <-. apply (ordered_head rest r0 Hord j r' Hr').
    + apply (IH (ordered_tail _ _ Hord) i j r r' Hr Hr'). lia.
Qed.

(** The interpolation is monotone in the coverage. *)
Lemma interpolation_monotone (c : PositionCache) (x y : Q) (r r' : Region) :
  Spec.ordered c ->
  let len := Z.of_nat (List.length c) in
  let i := Z.min (Qfloor x) (len - 1) in
  let j := Z.min (Qfloor y) (len - 1) in
  0 <= x -> x <= y ->
  (0 <= i)%Z -> (0 <= j)%Z ->
  nth_error c (Z.to_nat i) = Some r ->
  nth_error c (Z.to_nat j) = Some r' ->
  offset r + extent r * (x - inject_Z i) <= offset r' + extent r' * (y - inject_Z j).
Proof.
  intros Hord len i j Hx Hxy Hi Hj Hr Hr'.
  assert (Hfl : (Qfloor x <= Qfloor y)%Z) by (apply Qfloor_resp_le; exact Hxy).
  assert (Hij : (i <= j)%Z) by (subst i j; lia).
  assert (Hjy : inject_Z j <= y).
  { apply Qle_trans with (inject_Z (Qfloor y)); [|apply Qfloor_le].
    rewrite <- Zle_Qle. subst j. lia. }
  assert (Hix : inject_Z i <= x).
  { apply Qle_trans with (inject_Z (Qfloor x)); [|apply Qfloor_le].
    rewrite <- Zle_Qle. subst i. lia. }
  pose proof (ordered_extent c Hord _ _ Hr) as He.
  pose proof (ordered_extent c Hord _ _ Hr') as He'.
  destruct (Z.eq_dec i j) as [E | E].
  - rewrite <- E in Hr'. rewrite Hr in Hr'. injection Hr' as <-.
    rewrite <- E.
    assert (H : extent r * (x - inject_Z i) <= extent r * (y - inject_Z i)).
    { rewrite !(Qmult_comm (extent r)). apply Qmult_le_compat_r; lra. }
    lra.
  - assert (Hlt : (i < j)%Z) by lia.
    assert (Hi' : i = Qfloor x) by (subst i j; lia).
    assert (Hx1 : x - inject_Z i <= 1).
    { pose proof (Qlt_floor x) as H. rewrite inject_Z_plus in H.
      change (inject_Z 1) with 1 in H. rewrite Hi'. lra. }
    assert (Hchain : farEdge r <= offset r').
    { apply (ordered_chain c Hord (Z.to_nat i) (Z.to_nat j)); auto. lia. }
    assert (H1 : extent r * (x - inject_Z i) <= extent r * 1).
    { rewrite !(Qmult_comm (extent r)). apply Qmult_le_compat_r; lra. }
    assert (H2 : 0 <= extent r' * (y - inject_Z j)).
    { apply Qmult_le_0_compat; lra. }
    unfold farEdge in Hchain. lra.
Qed.

(** [computeTimeTop] is monotone on all finite durations, whether within the
    visible range or not. *)
Lemma computeTimeTop_monotone (this : TimeCols) (d1 d2 : Duration) (a1 a2 m s : Q) :
  milliseconds d1 = Fin a1 ->
  milliseconds d2 = Fin a2 ->
  milliseconds (minTime this) = Fin m ->
  milliseconds (slotDuration this) = Fin s ->
  0 < s ->
  slatPositions this <> [] ->
  Spec.ordered (slatPositions this) ->
  a1 <= a2 ->
  JS.leb (computeTimeTop this d1) (computeTimeTop this d2) = true.
Proof.
  intros H1 H2 Hm Hs Hpos Hslats Hord Hle.
  assert (Hnz : ~ s == 0) by lra.
  assert (Hlen : (1 <= Z.of_nat (slatEls_length this))%Z).
  { unfold slatEls_length. destruct (slatPositions this); [congruence | simpl; lia]. }
  destruct (computeTimeTop_finite this d1 a1 m s H1 Hm Hs Hnz Hlen)
    as (c1 & r1 & _ & Hc1 & Hc1' & Hlo1 & Hhi1 & Hmid1 & _ & Hi1 & Hr1 & Htop1).
  destruct (computeTimeTop_finite this d2 a2 m s H2 Hm Hs Hnz Hlen)
    as (c2 & r2 & _ & Hc2 & Hc2' & Hlo2 & Hhi2 & Hmid2 & _ & Hi2 & Hr2 & Htop2).
  assert (Hx : (a1 - m) / s <= (a2 - m) / s) by (apply div_mono; lra).
  set (x1 := (a1 - m) / s) in *. set (x2 := (a2 - m) / s) in *.
  set (len := inject_Z (Z.of_nat (slatEls_length this))) in *.
  assert (Hc : c1 <= c2).
  { destruct (Qlt_le_dec x1 0) as [L1 | L1].
    - rewrite (Hlo1 (Qlt_le_weak _ _ L1)). exact Hc2.
    - destruct (Qlt_le_dec len x2) as [L2 | L2].
      + rewrite (Hhi2 (Qlt_le_weak _ _ L2)). exact Hc1'.
      + assert (L3 : x1 <= len) by lra. assert (L4 : 0 <= x2) by lra.
        rewrite (Hmid1 L1 L3), (Hmid2 L4 L2). exact Hx. }
  rewrite Htop1, Htop2. simpl. qprops.
  apply (interpolation_monotone (slatPositions this) c1 c2 r1 r2 Hord);
    auto; apply Hi1 || apply Hi2.
Qed.

(** C3: under the cache invariant (slats ordered top to bottom and not
    overlapping, at least one of them) and with a positive slot duration,
    [computeTimeTop] is monotonically non-decreasing on the durations within
    [[minTime, minTime + totalSlatSpan]]. *)
Theorem computeTimeTop_monotone_in_range
    (this : TimeCols) (d1 d2 : Duration) (a1 a2 m s : Q) :
  milliseconds d1 = Fin a1 ->
  milliseconds d2 = Fin a2 ->
  milliseconds (minTime this) = Fin m ->
  milliseconds (slotDuration this) = Fin s ->
  0 < s ->
  slatPositions this <> [] ->
  Spec.ordered (slatPositions this) ->
  m <= a1 -> a1 <= a2 -> a2 <= m + inject_Z (Z.of_nat (slatEls_length this)) * s ->
  JS.leb (computeTimeTop this d1) (computeTimeTop this d2) = true.
Proof.
  intros H1 H2 Hm Hs Hpos Hslats Hord _ Hle _.
  apply (computeTimeTop_monotone this d1 d2 a1 a2 m s); assumption.
Qed.

Lemma sample_slats_ordered : Spec.ordered Sample.slats.
Proof. simpl. unfold farEdge. simpl. repeat split; try lra; discriminate. Qed.

(** The theorem on the sample grid: half past one is not below
    a quarter to one. *)
Lemma computeTimeTop_monotone_in_range_witness :
  JS.leb (computeTimeTop (Sample.grid Sample.slats) (Sample.ms (45 * Sample.minute)))
         (computeTimeTop (Sample.grid Sample.slats) (Sample.ms (90 * Sample.minute))) = true.
Proof.
  apply (computeTimeTop_monotone_in_range (Sample.grid Sample.slats) _ _
           (inject_Z (45 * Sample.minute)) (inject_Z (90 * Sample.minute))
           (inject_Z 0) (inject_Z (60 * Sample.minute)));
    try reflexivity; try discriminate.
  exact sample_slats_ordered.
Defined.

(** ** Vertical extents of segments *)

Lemma Math_max_lower_bound (a b : num) :
  JS.ltb (JS.Math_max a b) a = false /\
  (JS.isNaN (JS.Math_max a b) = false -> JS.leb a (JS.Math_max a b) = true).
Proof.
  destruct a as [| | |p], b as [| | |q]; simpl; try (split; intros; congruence).
  - split; [|intros _]; qcases; try reflexivity; lra.
  - destruct (Qle_bool p q) eqn:E; simpl; split; intros; qcases; auto; lra.
Qed.

Lemma computeSegVertical_processed (startOfDay : DateMarker -> DateMarker)
    (this : TimeCols) (seg : Seg) :
  (col seg < List.length (cells this))%nat ->
  exists seg', computeSegVertical startOfDay this seg = Ok seg' /\
               processed startOfDay this seg seg'.
Proof.
  intros Hcol. unfold computeSegVertical.
  destruct (nth_error (cells this) (col seg)) as [dayDate|] eqn:E.
  - eexists. split; [reflexivity|].
    exists dayDate. do 2 eexists.
    split; [exact E|]. split; [reflexivity|]. split; [reflexivity|].
    simpl. repeat (split; [reflexivity|]).
    apply Math_max_lower_bound.
  - apply nth_error_None in E. lia.
Qed.

(** C4: when every segment names an existing column, [computeSegVerticals]
    completes and sets, for every segment of the list,
    [top = computeDateTop(start, dayDate)] and
    [bottom = max(top + eventMinHeight, computeDateTop(end, dayDate))], where
    [dayDate] is the date of the segment's column; it never produces
    [bottom < top + eventMinHeight], and [bottom >= top + eventMinHeight]
    holds whenever [bottom] is a number. *)
Theorem computeSegVerticals_spec (startOfDay : DateMarker -> DateMarker)
    (this : TimeCols) (segs : list Seg) :
  Forall (fun seg => (col seg < List.length (cells this))%nat) segs ->
  exists segs',
    computeSegVerticals startOfDay this segs = Ok segs' /\
    Forall2 (processed startOfDay this) segs segs'.
Proof.
  induction 1 as [|seg rest Hcol _ IH].
  - exists []. split; [reflexivity | constructor].
  - destruct (computeSegVertical_processed startOfDay this seg Hcol) as (seg' & E & Hseg).
    destruct IH as (rest' & Erest & Hrest).
    exists (seg' :: rest'). split.
    + simpl. rewrite E. simpl. rewrite Erest. reflexivity.
    + constructor; assumption.
Qed.

(** The theorem on the sample grid: an event of a quarter of an hour starting
    at one o'clock lies between the pixels 50 and 62.5. *)
Lemma computeSegVerticals_spec_witness :
  exists seg',
    computeSegVerticals Sample.startOfDay (Sample.grid Sample.slats)
      [Sample.seg (60 * Sample.minute) (75 * Sample.minute)] = Ok [seg'] /\
    (coordinate (top seg') == Fin 50)%num /\
    (coordinate (bottom seg') == Fin (125 # 2))%num.
Proof.
  destruct (computeSegVerticals_spec Sample.startOfDay (Sample.grid Sample.slats)
              [Sample.seg (60 * Sample.minute) (75 * Sample.minute)])
    as (segs' & E & H).
  - repeat constructor.
  - inversion H as [|seg seg' rest rest' Hseg Hrest]; subst.
    inversion Hrest; subst.
    exists seg'. split; [exact E|].
    destruct Hseg as (dayDate & topPx & bottomPx & Hday & -> & -> & -> & -> & _).
    injection Hday as <-.
    split; vm_compute; reflexivity.
Defined.

(** ** Hit system *)

Lemma contains_spec (r : Region) (position : Q) :
  contains r position = true <-> offset r <= position /\ position < farEdge r.
Proof.
  unfold contains. rewrite andb_true_iff, negb_true_iff.
  rewrite Qle_bool_iff, Qle_bool_false. reflexivity.
Qed.

Lemma positionToIndexFrom_Some (c : PositionCache) (position : Q) :
  forall k i : nat,
    positionToIndexFrom k c position = Some i ->
    exists r, (k <= i)%nat /\ nth_error c (i - k) = Some r /\ contains r position = true.
Proof.
  induction c as [|r0 rest IH]; intros k i H; simpl in H; [discriminate|].
  destruct (contains r0 position) eqn:E.
  - injection H as <-. exists r0. rewrite Nat.sub_diag. auto.
  - destruct (IH (S k) i H) as (r & Hk & Hr & Hc).
    exists r. split; [lia|]. split; [|exact Hc].
    replace (i - k)%nat with (S (i - S k)) by lia. exact Hr.
Qed.

Lemma positionToIndexFrom_None (c : PositionCache) (position : Q) :
  forall k : nat,
    positionToIndexFrom k c position = None <->
    (forall r, In r c -> contains r position = false).
Proof.
  induction c as [|r0 rest IH]; intros k; simpl.
  - split; [intros _ r [] | reflexivity].
  - destruct (contains r0 position) eqn:E.
    + split; [discriminate|]. intros H. specialize (H r0 (or_introl eq_refl)). congruence.
    + rewrite IH. split.
      * intros H r [<- | Hin]; auto.
      * intros H r Hin. apply H. right. exact Hin.
Qed.

(** The index a lookup returns is the index of a region of the cache that
    contains the position. *)
Lemma positionToIndex_Some (c : PositionCache) (position : Q) (i : nat) :
  positionToIndex c position = Some i ->
  exists r, nth_error c i = Some r /\ offset r <= position /\ position < farEdge r.
Proof.
  intros H. destruct (positionToIndexFrom_Some c position 0 i H) as (r & _ & Hr & Hc).
  rewrite Nat.sub_0_r in Hr. exists r. split; [exact Hr|].
  apply contains_spec. exact Hc.
Qed.

(** A position outside all the intervals is not found. *)
Lemma positionToIndex_outside (c : PositionCache) (position : Q) :
  (forall r, In r c -> ~ (offset r <= position /\ position < farEdge r)) ->
  positionToIndex c position = None.
Proof.
  intros H. apply positionToIndexFrom_None. intros r Hin.
  destruct (contains r position) eqn:E; [|reflexivity].
  apply contains_spec in E. exfalso. exact (H r Hin E).
Qed.

Lemma index_ofNat {A : Type} (arr : list A) (i : nat) :
  JS.index arr (JS.ofNat i) = nth_error arr i.
Proof.
  change (JS.ofNat i) with (JS.ofZ (Z.of_nat i)).
  rewrite index_ofZ by lia. rewrite Nat2Z.id. reflexivity.
Qed.

(** C5: [positionToHit] returns "no hit" exactly when the column lookup on the
    left position or the slat lookup on the top position finds nothing; it does
    so whenever the left position lies outside all the column intervals or the
    top position outside all the slat intervals; a hit is produced only when
    both indices are found, and it carries the found column. *)
Theorem positionToHit_no_hit (this : TimeCols) (positionLeft positionTop : Q) :
  (positionToHit this positionLeft positionTop = Ok None <->
   leftToIndex (colPositions this) positionLeft = None \/
   topToIndex (slatPositions this) positionTop = None) /\
  ((forall r, In r (colPositions this) ->
              ~ (offset r <= positionLeft /\ positionLeft < farEdge r)) ->
   positionToHit this positionLeft positionTop = Ok None) /\
  ((forall r, In r (slatPositions this) ->
              ~ (offset r <= positionTop /\ positionTop < farEdge r)) ->
   positionToHit this positionLeft positionTop = Ok None) /\
  (forall hit, positionToHit this positionLeft positionTop = Ok (Some hit) ->
     exists colIndex slatIndex,
       leftToIndex (colPositions this) positionLeft = Some colIndex /\
       topToIndex (slatPositions this) positionTop = Some slatIndex /\
       hit_col hit = colIndex).
Proof.
  unfold positionToHit.
  split; [|split; [|split]].
  - destruct (leftToIndex _ _) as [ci|]; destruct (topToIndex _ _) as [si|].
    + destruct (nth_error (cells this) ci); split; try discriminate;
        intros [H | H]; discriminate.
    + split; auto.
    + split; auto.
    + split; auto.
  - intros H. unfold leftToIndex.
    rewrite (positionToIndex_outside _ _ H). reflexivity.
  - intros H. unfold topToIndex.
    rewrite (positionToIndex_outside _ _ H).
    destruct (leftToIndex _ _); reflexivity.
  - intros hit.
    destruct (leftToIndex _ _) as [ci|]; destruct (topToIndex _ _) as [si|];
      try discriminate.
    destruct (nth_error (cells this) ci); [|discriminate].
    intros H. injection H as <-. exists ci, si. auto.
Qed.

(** The example of the specification: one column spanning [[0, 100)] and one
    slat spanning [[0, 50)]. *)
Lemma positionToHit_no_hit_witness :
  positionToHit (Sample.grid Sample.oneSlat) 150 10 = Ok None /\
  exists hit, positionToHit (Sample.grid Sample.oneSlat) 50 10 = Ok (Some hit) /\
              hit_col hit = 0%nat.
Proof.
  destruct (positionToHit_no_hit (Sample.grid Sample.oneSlat) 150 10)
    as (_ & Houtside & _ & _).
  split.
  - apply Houtside. intros r [<- | []] [_ H]. vm_compute in H. discriminate.
  - destruct (positionToHit (Sample.grid Sample.oneSlat) 50 10) as [[hit|]|] eqn:E;
      try (vm_compute in E; discriminate).
    exists hit. split; [reflexivity|].
    destruct (positionToHit_no_hit (Sample.grid Sample.oneSlat) 50 10)
      as (_ & _ & _ & Hhit).
    destruct (Hhit hit E) as (ci & si & Hci & _ & ->).
    vm_compute in Hci. injection Hci as <-. reflexivity.
Defined.

(** *** Binary64 rounding *)

Lemma round64_comp (p q : Q) : p == q -> F64.round64 p = F64.round64 q.
Proof. intros H. unfold F64.round64. rewrite (Qred_complete p q H). reflexivity. Qed.

Lemma round_eqv (a b : num) : (a == b)%num -> F64.round a = F64.round b.
Proof.
  destruct a, b; simpl; try contradiction; auto.
  apply round64_comp.
Qed.

Lemma roundHalfEven_nonneg (n d : Z) :
  (0 <= n)%Z -> (0 < d)%Z -> (0 <= F64.roundHalfEven n d)%Z.
Proof.
  intros Hn Hd. unfold F64.roundHalfEven.
  pose proof (Z.div_pos n d Hn Hd) as Hq.
  destruct (2 * (n mod d) ?= d)%Z; [destruct (Z.even (n / d))| |]; lia.
Qed.

Lemma scale_nonneg (m e : Z) : (0 <= m)%Z -> 0 <= F64.scale m e.
Proof.
  intros Hm. unfold F64.scale. destruct (0 <=? e)%Z.
  - change 0 with (inject_Z 0). rewrite <- Zle_Qle.
    apply Z.mul_nonneg_nonneg; [exact Hm | apply Z.pow_nonneg; lia].
  - unfold Qle. simpl. lia.
Qed.

Lemma nearest_nonneg (a d : positive) : 0 <= F64.nearest (Zpos a) (Zpos d).
Proof.
  unfold F64.nearest. apply scale_nonneg. apply roundHalfEven_nonneg.
  - apply Z.mul_nonneg_nonneg; [lia | apply Z.pow_nonneg; lia].
  - apply Z.mul_pos_pos; [lia | apply Z.pow_pos_nonneg; lia].
Qed.

(** Rounding never produces NaN, and keeps a number that is not negative
    that way: the result is a double that is not negative, or the positive
    infinity. *)
Lemma round64_nonneg (q : Q) :
  0 <= q ->
  (exists p, F64.round64 q = Fin p /\ 0 <= p) \/ F64.round64 q = PosInf.
Proof.
  intros Hq. unfold F64.round64.
  assert (Hred : 0 <= Qred q) by (rewrite Qred_correct; exact Hq).
  destruct (Qred q) as [n d]. simpl Qnum. simpl Qden.
  destruct n as [|a|a].
  - left. exists 0. split; [reflexivity | lra].
  - destruct (Qle_bool F64.overflow (Zpos a # d)); [right; reflexivity|].
    left. eexists. split; [reflexivity | apply nearest_nonneg].
  - exfalso. unfold Qle in Hred. simpl in Hred. lia.
Qed.

Lemma round64_not_NaN (q : Q) : JS.isNaN (F64.round64 q) = false.
Proof.
  unfold F64.round64. destruct (Qnum (Qred q)); [reflexivity | |];
    destruct (Qle_bool _ _); reflexivity.
Qed.

(** What the source computes for a found slat: the reads of the cache give the
    offset and the positive extent of the slat that holds the position. *)
Lemma partialOf_found (this : TimeCols) (positionTop : Q) (slatIndex : nat) :
  topToIndex (slatPositions this) positionTop = Some slatIndex ->
  exists r : Region,
    nth_error (slatPositions this) slatIndex = Some r /\
    0 < extent r /\
    offset r <= positionTop /\ positionTop < farEdge r /\
    getHeight (slatPositions this) (JS.ofNat slatIndex) = Fin (extent r) /\
    partialOf this slatIndex positionTop =
      F64.div (F64.sub (Fin positionTop) (Fin (offset r))) (Fin (extent r)).
Proof.
  intros H. destruct (positionToIndex_Some _ _ _ H) as (r & Hr & Hlo & Hhi).
  exists r. unfold farEdge in *.
  assert (Hext : 0 < extent r) by lra.
  repeat (split; [assumption|]).
  unfold partialOf, getHeight, tops.
  rewrite !index_ofNat, !nth_error_map, Hr. split; reflexivity.
Qed.

(** The quotient of the hit test is a double that is not negative, or the
    positive infinity. *)
Lemma partial_nonneg (y top_ height : Q) :
  top_ <= y -> 0 < height ->
  JS.isNaN (F64.div (F64.sub (Fin y) (Fin top_)) (Fin height)) = false /\
  JS.leb (Fin 0) (F64.div (F64.sub (Fin y) (Fin top_)) (Fin height)) = true.
Proof.
  intros Hy Hheight.
  assert (Hnz : Qeq_bool height 0 = false) by (apply Qeq_bool_false; lra).
  assert (Hpos : Qle_bool 0 height = true) by (apply Qle_bool_iff; lra).
  unfold F64.div, F64.sub.
  change (JS.sub (Fin y) (Fin top_)) with (Fin (y + - top_)).
  change (F64.round (Fin (y + - top_))) with (F64.round64 (y + - top_)).
  destruct (round64_nonneg (y + - top_)) as [(d & E & Hd) | E]; [lra| |]; rewrite E.
  - change (JS.div (Fin d) (Fin height))
      with (if Qeq_bool height 0 then JS.signedInf d else Fin (d / height)).
    rewrite Hnz.
    change (F64.round (Fin (d / height))) with (F64.round64 (d / height)).
    assert (Hquot : 0 <= d / height) by (apply div_nonneg; assumption).
    destruct (round64_nonneg (d / height) Hquot) as [(p & E2 & Hp) | E2]; rewrite E2.
    + split; [reflexivity|]. apply Qle_bool_iff. exact Hp.
    + split; reflexivity.
  - change (JS.div PosInf (Fin height)) with (if Qle_bool 0 height then PosInf else NegInf).
    rewrite Hpos. split; reflexivity.
Qed.

(** C7: a slat region of zero extent is never matched by the slat lookup, so
    the division of the hit test is never made for it; for every slat the
    lookup does return, the height that divides is the positive extent of
    that slat, never zero, and the fraction
    [(positionTop - slatTop) / slatHeight], computed in binary64, is never
    NaN: it is a number that is not negative. *)
Theorem positionToHit_partial_defined (this : TimeCols) (positionTop : Q) :
  (forall (i : nat) (r : Region),
     nth_error (slatPositions this) i = Some r -> extent r == 0 ->
     contains r positionTop = false /\
     topToIndex (slatPositions this) positionTop <> Some i) /\
  (forall slatIndex : nat,
     topToIndex (slatPositions this) positionTop = Some slatIndex ->
     exists r : Region,
       nth_error (slatPositions this) slatIndex = Some r /\
       0 < extent r /\
       getHeight (slatPositions this) (JS.ofNat slatIndex) = Fin (extent r) /\
       partialOf this slatIndex positionTop =
         F64.div (F64.sub (Fin positionTop) (Fin (offset r))) (Fin (extent r)) /\
       JS.isNaN (partialOf this slatIndex positionTop) = false /\
       JS.leb (Fin 0) (partialOf this slatIndex positionTop) = true).
Proof.
  split.
  - intros i r Hr Hzero.
    assert (Hc : contains r positionTop = false).
    { destruct (contains r positionTop) eqn:E; [|reflexivity].
      apply contains_spec in E. unfold farEdge in E. lra. }
    split; [exact Hc|].
    intros H. destruct (partialOf_found this positionTop i H) as (r' & Hr' & Hext & _).
    rewrite Hr in Hr'. injection Hr' as <-. lra.
  - intros slatIndex H.
    destruct (partialOf_found this positionTop slatIndex H)
      as (r & Hr & Hext & Hlo & Hhi & Hheight & Hpartial).
    exists r. repeat (split; [assumption|]).
    rewrite Hpartial. apply partial_nonneg; assumption.
Qed.

(** The theorem on a grid whose second slat is collapsed: at the pixel 50
    the collapsed slat [[50, 50)] is passed over and the third slat,
    [[50, 80)], is found. *)
Lemma positionToHit_partial_defined_witness :
  let collapsed := [ {| offset := 0; extent := 50 |};
                     {| offset := 50; extent := 0 |};
                     {| offset := 50; extent := 30 |} ] in
  contains {| offset := 50; extent := 0 |} 50 = false /\
  topToIndex (slatPositions (Sample.grid collapsed)) 50 <> Some 1%nat /\
  topToIndex (slatPositions (Sample.grid collapsed)) 50 = Some 2%nat /\
  JS.isNaN (partialOf (Sample.grid collapsed) 2 50) = false.
Proof.
  cbv zeta.
  destruct (positionToHit_partial_defined
              (Sample.grid [ {| offset := 0; extent := 50 |};
                             {| offset := 50; extent := 0 |};
                             {| offset := 50; extent := 30 |} ]) 50) as [Hzero Hfound].
  destruct (Hzero 1%nat {| offset := 50; extent := 0 |} eq_refl) as [Hc Hnot];
    [reflexivity|].
  destruct (Hfound 2%nat eq_refl) as (r & _ & _ & _ & _ & Hnan & _).
  split; [exact Hc|]. split; [exact Hnot|]. split; [reflexivity | exact Hnan].
Defined.

(** The hit produced when both indices are found and the column has a date. *)
Lemma positionToHit_found (this : TimeCols) (positionLeft positionTop : Q)
    (colIndex slatIndex : nat) (dayDate : DateMarker) :
  leftToIndex (colPositions this) positionLeft = Some colIndex ->
  topToIndex (slatPositions this) positionTop = Some slatIndex ->
  nth_error (cells this) colIndex = Some dayDate ->
  let slatTop := JS.toNumber (JS.index (tops (slatPositions this)) (JS.ofNat slatIndex)) in
  let slatHeight := getHeight (slatPositions this) (JS.ofNat slatIndex) in
  let start := dateEnv_add dayDate (timeOf this slatIndex positionTop) in
  positionToHit this positionLeft positionTop =
  Ok (Some {| hit_col := colIndex;
              range_start := start;
              range_end := dateEnv_add start (snapDuration this);
              allDay := false;
              dayEl := colIndex;
              relativeRect :=
                {| left := JS.toNumber (JS.index (lefts (colPositions this)) (JS.ofNat colIndex));
                   right := JS.toNumber (JS.index (rights (colPositions this)) (JS.ofNat colIndex));
                   rect_top := slatTop;
                   rect_bottom := (slatTop + slatHeight)%num |} |}).
Proof.
  intros Hcol Hslat Hday. unfold positionToHit.
  rewrite Hcol, Hslat, Hday. reflexivity.
Qed.

(** C6: for a position whose column and slat are both found, and a date for
    the column, [positionToHit] produces a hit with
    [partial = (y - slat offset) / slat extent],
    [localSnap = floor(partial * snapsPerSlot)],
    [snapIndex = slatIndex * snapsPerSlot + localSnap],
    [time = minTime + snapDuration * snapIndex],
    [start = day start of the column + time] and [end = start + snapDuration],
    the arithmetic up to the snap index being that of doubles.  In particular
    with four snaps of 15 minutes per slot, the slat of index 2 and a fraction
    of one half, the snap index is 10 and the time is [minTime] plus
    150 minutes. *)
Theorem positionToHit_snap (this : TimeCols) (positionLeft positionTop : Q)
    (colIndex slatIndex : nat) (dayDate : DateMarker) :
  leftToIndex (colPositions this) positionLeft = Some colIndex ->
  topToIndex (slatPositions this) positionTop = Some slatIndex ->
  nth_error (cells this) colIndex = Some dayDate ->
  exists (r : Region) (hit : Hit),
    nth_error (slatPositions this) slatIndex = Some r /\
    positionToHit this positionLeft positionTop = Ok (Some hit) /\
    hit_col hit = colIndex /\
    partialOf this slatIndex positionTop =
      F64.div (F64.sub (Fin positionTop) (Fin (offset r))) (Fin (extent r)) /\
    snapIndexOf this slatIndex positionTop =
      F64.add (F64.mul (JS.ofNat slatIndex) (snapsPerSlot this))
              (JS.Math_floor (F64.mul (partialOf this slatIndex positionTop)
                                      (snapsPerSlot this))) /\
    milliseconds (timeOf this slatIndex positionTop) =
      (milliseconds (minTime this) +
       milliseconds (snapDuration this) * snapIndexOf this slatIndex positionTop)%num /\
    (range_start hit, range_end hit) =
      Spec.hitTimeRange (offset r) (extent r) slatIndex (snapsPerSlot this)
        (milliseconds (minTime this)) (milliseconds (snapDuration this))
        dayDate positionTop /\
    (forall k p : Q,
       snapsPerSlot this = Fin k -> k == 4 ->
       milliseconds (snapDuration this) = Fin p -> p == inject_Z (15 * Sample.minute) ->
       slatIndex = 2%nat ->
       (partialOf this slatIndex positionTop == Fin (1 # 2))%num ->
       (snapIndexOf this slatIndex positionTop == JS.ofZ 10)%num /\
       (milliseconds (timeOf this slatIndex positionTop) ==
        milliseconds (minTime this) + JS.ofZ (150 * Sample.minute))%num).
Proof.
  intros Hcol Hslat Hday.
  destruct (partialOf_found this positionTop slatIndex Hslat)
    as (r & Hr & Hext & _ & _ & _ & Hpartial).
  exists r. eexists. split; [exact Hr|].
  split; [apply (positionToHit_found this _ _ _ _ _ Hcol Hslat Hday)|].
  cbv zeta. cbn [hit_col range_start range_end].
  split; [reflexivity|]. split; [exact Hpartial|]. split; [reflexivity|].
  assert (Htime : milliseconds (timeOf this slatIndex positionTop) =
                  (milliseconds (minTime this) +
                   milliseconds (snapDuration this) *
                   snapIndexOf this slatIndex positionTop)%num) by reflexivity.
  split; [exact Htime|]. split.
  - unfold Spec.hitTimeRange, dateEnv_add. rewrite Htime.
    unfold snapIndexOf. rewrite Hpartial. reflexivity.
  - intros k p Hk Ek Hp Ep Ei Ehalf. subst slatIndex.
    assert (Hsnap : (snapIndexOf this 2 positionTop == JS.ofZ 10)%num).
    { unfold snapIndexOf. rewrite Hk.
      destruct (partialOf this 2 positionTop) as [| | |half]; try contradiction.
      simpl in Ehalf. unfold F64.add, F64.mul. simpl JS.mul. unfold F64.round at 2 3.
      assert (E1 : half * k == inject_Z 2) by (rewrite Ehalf, Ek; reflexivity).
      assert (E2 : inject_Z 2 * k == inject_Z 8) by (rewrite Ek; reflexivity).
      rewrite (round64_comp _ _ E1), (round64_comp _ _ E2).
      vm_compute. reflexivity. }
    split; [exact Hsnap|].
    rewrite Htime, Hp, Hsnap. simpl JS.mul.
    assert (E : p * inject_Z 10 == inject_Z (150 * Sample.minute)).
    { rewrite Ep. reflexivity. }
    unfold JS.ofZ. rewrite E. reflexivity.
Qed.

(** The example of the specification: a slot of 60 minutes and a snap of
    15 minutes as processed from the options, and a pointer at the pixel 115,
    halfway through the slat of index 2 that covers [[100, 130)]. *)
Lemma positionToHit_snap_witness :
  let this := _processOptions (Sample.grid Sample.slats)
                {| opt_slotDuration := InParsed (Sample.ms (60 * Sample.minute));
                   opt_snapDuration := Some (InParsed (Sample.ms (15 * Sample.minute))) |} in
  (snapIndexOf this 2 115 == JS.ofZ 10)%num /\
  (milliseconds (timeOf this 2 115) == JS.ofZ (150 * Sample.minute))%num /\
  exists hit, positionToHit this 50 115 = Ok (Some hit) /\
              (range_start hit == JS.ofZ (150 * Sample.minute))%num /\
              (range_end hit == JS.ofZ (165 * Sample.minute))%num.
Proof.
  cbv zeta.
  destruct (positionToHit_snap
              (_processOptions (Sample.grid Sample.slats)
                {| opt_slotDuration := InParsed (Sample.ms (60 * Sample.minute));
                   opt_snapDuration := Some (InParsed (Sample.ms (15 * Sample.minute))) |})
              50 115 0 2 (JS.ofZ 0) eq_refl eq_refl eq_refl)
    as (r & hit & Hr & Hhit & _ & _ & _ & _ & Hrange & Hexample).
  injection Hr as <-.
  destruct (Hexample (inject_Z (60 * Sample.minute) / inject_Z (15 * Sample.minute))
                     (inject_Z (15 * Sample.minute)) eq_refl) as [Hsnap Htime];
    try (vm_compute; reflexivity).
  split; [exact Hsnap|]. split; [rewrite Htime; vm_compute; reflexivity|].
  exists hit. split; [exact Hhit|].
  pose proof (f_equal fst Hrange) as Hstart. pose proof (f_equal snd Hrange) as Hend.
  cbn [fst snd] in Hstart, Hend. rewrite Hstart, Hend.
  split; vm_compute; reflexivity.
Defined.

(** Where the rounding shows: on a slat of 45 pixels with 45 snaps of one
    minute, the pixel 13 lies in the thirteenth snap, not in the fourteenth,
    because the double nearest to 13/45, times 45, rounds to a double just
    below 13. *)
Lemma snapIndexOf_rounds_down :
  let this := _processOptions (Sample.grid [ {| offset := 0; extent := 45 |} ])
                {| opt_slotDuration := InParsed (Sample.ms (45 * Sample.minute));
                   opt_snapDuration := Some (InParsed (Sample.ms (1 * Sample.minute))) |} in
  (snapsPerSlot this == JS.ofZ 45)%num /\
  (snapIndexOf this 0 13 == JS.ofZ 12)%num /\
  (milliseconds (timeOf this 0 13) == JS.ofZ (12 * Sample.minute))%num /\
  Qfloor ((13 - 0) / 45 * 45) = 13%Z.
Proof.
  cbv zeta. split; [|split; [|split]]; vm_compute; reflexivity.
Qed.

(** ** Now indicator *)

Lemma renderLines_valid (this : TimeCols) (top_ : num) (segs : list Seg) :
  Forall (fun seg => (col seg < colContainerEls this)%nat) segs ->
  renderLines this top_ segs = Ok (map (fun seg => lineEl top_ (col seg)) segs).
Proof.
  induction 1 as [|seg rest Hcol _ IH]; [reflexivity|].
  simpl. apply Nat.ltb_lt in Hcol. rewrite Hcol, IH. reflexivity.
Qed.

(** C8, as the code has it: called with a date, the now indicator produces
    no node at all, and raises nothing, when there is no segment; with
    segments, each in an existing column, it produces for every segment, in
    order, one [div] of class [fc-now-indicator fc-now-indicator-line]
    appended to the container of that segment's column, followed by exactly
    one [div] of class [fc-now-indicator fc-now-indicator-arrow] appended to
    the root element, all of them with the single top offset that
    [computeTimeTop] gives for the time of day of the date.  Called without a
    date it produces no node, whatever the segments are. *)
Theorem renderNowIndicator_nodes (startOfDay : DateMarker -> DateMarker)
    (this : TimeCols) (date : DateMarker) (segs : list Seg) :
  let top_ := computeTimeTop this (createDuration (InNumber (date - startOfDay date)%num)) in
  _renderNowIndicator startOfDay this (Some date) [] = Ok [] /\
  (segs <> [] ->
   Forall (fun seg => (col seg < colContainerEls this)%nat) segs ->
   exists nodes,
     _renderNowIndicator startOfDay this (Some date) segs = Ok nodes /\
     nodes =
       map (fun seg => {| className := "fc-now-indicator fc-now-indicator-line";
                          style_top := top_;
                          parentNode := ColContainer (col seg) |}) segs ++
       [ {| className := "fc-now-indicator fc-now-indicator-arrow";
            style_top := top_;
            parentNode := RootEl |} ] /\
     List.length nodes = S (List.length segs) /\
     (forall (i : nat) (seg : Seg),
        nth_error segs i = Some seg ->
        exists line,
          nth_error nodes i = Some line /\
          parentNode line = ColContainer (col seg) /\
          className line = "fc-now-indicator fc-now-indicator-line"%string /\
          style_top line = top_) /\
     (exists arrow,
        nth_error nodes (List.length segs) = Some arrow /\
        parentNode arrow = RootEl /\
        className arrow = "fc-now-indicator fc-now-indicator-arrow"%string /\
        style_top arrow = top_) /\
     Forall (fun node =>
               parentNode node = RootEl ->
               node = {| className := "fc-now-indicator fc-now-indicator-arrow";
                         style_top := top_;
                         parentNode := RootEl |}) nodes) /\
  _renderNowIndicator startOfDay this None segs = Ok [].
Proof.
  cbv zeta. split; [reflexivity|]. split; [|reflexivity].
  intros Hsegs Hcols. eexists.
  split; [|split; [reflexivity|split; [|split; [|split]]]].
  - unfold _renderNowIndicator, computeDateTop.
    rewrite (renderLines_valid this _ segs Hcols). simpl bind.
    destruct segs as [|seg rest]; [congruence|]. reflexivity.
  - rewrite length_app, length_map. simpl. lia.
  - intros i seg Hseg. eexists. split.
    + rewrite nth_error_app1 by (rewrite length_map; apply nth_error_Some; congruence).
      rewrite nth_error_map, Hseg. reflexivity.
    + repeat split.
  - eexists. split.
    + rewrite nth_error_app2 by (rewrite length_map; lia).
      rewrite length_map, Nat.sub_diag. reflexivity.
    + repeat split.
  - apply Forall_app. split.
    + apply Forall_map. apply Forall_forall. intros seg _. simpl. discriminate.
    + constructor; [reflexivity | constructor].
Qed.

(** The theorem on the sample grid, at half past one of the first day. *)
Lemma renderNowIndicator_nodes_witness :
  exists nodes,
    _renderNowIndicator Sample.startOfDay (Sample.grid Sample.slats)
      (Some (JS.ofZ (90 * Sample.minute)))
      [Sample.seg 0 (24 * 60 * Sample.minute)] = Ok nodes /\
    List.length nodes = 2%nat /\
    (exists line, nth_error nodes 0 = Some line /\ parentNode line = ColContainer 0) /\
    (exists arrow, nth_error nodes 1 = Some arrow /\ parentNode arrow = RootEl).
Proof.
  destruct (renderNowIndicator_nodes Sample.startOfDay (Sample.grid Sample.slats)
              (JS.ofZ (90 * Sample.minute)) [Sample.seg 0 (24 * 60 * Sample.minute)])
    as (_ & H & _).
  destruct H as (nodes & E & _ & Hlen & Hlines & Harrow & _).
  - discriminate.
  - repeat constructor.
  - exists nodes. split; [exact E|]. split; [exact Hlen|]. split.
    + destruct (Hlines 0%nat _ eq_refl) as (line & Hline & Hparent & _).
      exists line. split; [exact Hline | exact Hparent].
    + destruct Harrow as (arrow & Harrow & Hparent & _).
      exists arrow. split; [exact Harrow | exact Hparent].
Defined.

(** C8 as stated fails for a call without a date: the guard returns before the
    segments are looked at, so a segment in view gets neither its line nor the
    arrow. *)
Lemma renderNowIndicator_without_date :
  let segs := [Sample.seg 0 (24 * 60 * Sample.minute)] in
  segs <> [] /\
  Forall (fun seg => (col seg < colContainerEls (Sample.grid Sample.slats))%nat) segs /\
  _renderNowIndicator Sample.startOfDay (Sample.grid Sample.slats) None segs = Ok [] /\
  ~ (exists nodes,
       _renderNowIndicator Sample.startOfDay (Sample.grid Sample.slats) None segs = Ok nodes /\
       List.length nodes = S (List.length segs)).
Proof.
  cbv zeta. split; [discriminate|]. split; [repeat constructor|].
  split; [reflexivity|].
  intros (nodes & E & Hlen). simpl in E. injection E as <-. discriminate.
Qed.

(** ** Applying verticals *)

(** C9, as the code has it: the stored [bottom] of a processed segment is the
    pixel of its bottom edge measured from the top of the grid,
    [max(top + eventMinHeight, computeDateTop(end))]; applying the verticals
    gives the element the style pair [top] and [bottom] (and no height),
    where [bottom] is the stored bottom negated. *)
Theorem assignSegVerticals_css (startOfDay : DateMarker -> DateMarker)
    (this : TimeCols) (segs : list Seg) :
  Forall (fun seg => (col seg < List.length (cells this))%nat) segs ->
  exists segs',
    computeSegVerticals startOfDay this segs = Ok segs' /\
    Forall2
      (fun seg css =>
         exists dayDate topPx bottomPx,
           nth_error (cells this) (col seg) = Some dayDate /\
           topPx = computeDateTop startOfDay this (start seg) (Some dayDate) /\
           bottomPx = JS.Math_max (topPx + timeGridEventMinHeight this)%num
                        (computeDateTop startOfDay this (end_ seg) (Some dayDate)) /\
           css = {| css_top := Some topPx; css_bottom := (- bottomPx)%num |})
      segs (assignSegVerticals segs') /\
    Forall2
      (fun seg seg' =>
         exists dayDate,
           nth_error (cells this) (col seg) = Some dayDate /\
           bottom seg' =
           Some (JS.Math_max
                   (computeDateTop startOfDay this (start seg) (Some dayDate) +
                    timeGridEventMinHeight this)%num
                   (computeDateTop startOfDay this (end_ seg) (Some dayDate))))
      segs segs'.
Proof.
  induction 1 as [|seg rest Hcol _ IH].
  - exists []. split; [reflexivity|]. split; constructor.
  - destruct (computeSegVertical_processed startOfDay this seg Hcol) as (seg' & E & Hseg).
    destruct IH as (rest' & Erest & Hcss & Hbottom).
    exists (seg' :: rest'). split; [|split].
    + simpl. rewrite E. simpl. rewrite Erest. reflexivity.
    + simpl. constructor; [|exact Hcss].
      destruct Hseg as (dayDate & topPx & bottomPx & Hday & Htop & Hbot & Et & Eb & _).
      exists dayDate, topPx, bottomPx. repeat (split; [assumption|]).
      unfold generateSegVerticalCss. rewrite Et, Eb. reflexivity.
    + constructor; [|exact Hbottom].
      destruct Hseg as (dayDate & topPx & bottomPx & Hday & Htop & Hbot & Et & Eb & _).
      exists dayDate. split; [exact Hday|]. rewrite Eb, Hbot, Htop. reflexivity.
Qed.

(** The theorem on the sample grid: an event from one o'clock to half past one
    gets [top: 50] and [bottom: -75]. *)
Lemma assignSegVerticals_css_witness :
  exists segs' css,
    computeSegVerticals Sample.startOfDay (Sample.grid Sample.slats)
      [Sample.seg (60 * Sample.minute) (90 * Sample.minute)] = Ok segs' /\
    assignSegVerticals segs' = [css] /\
    (coordinate (css_top css) == JS.ofZ 50)%num /\
    (css_bottom css == JS.ofZ (-75))%num.
Proof.
  destruct (assignSegVerticals_css Sample.startOfDay (Sample.grid Sample.slats)
              [Sample.seg (60 * Sample.minute) (90 * Sample.minute)])
    as (segs' & E & Hcss & _).
  - repeat constructor.
  - inversion Hcss as [|seg css rest rest' Hseg Hrest Es Ec]; subst.
    inversion Hrest; subst.
    exists segs', css. split; [exact E|]. split; [symmetry; assumption|].
    destruct Hseg as (dayDate & topPx & bottomPx & Hday & -> & -> & ->).
    injection Hday as <-. split; vm_compute; reflexivity.
Defined.

(** C9 as stated fails: on the sample grid, whose slat container is 130 pixels
    high, an event ending at half past one has its bottom edge at the pixel 75
    from the top, 55 pixels above the bottom edge of the container; the stored
    [bottom] is 75, the coordinate from the top, not 55. *)
Lemma seg_bottom_is_measured_from_top :
  let this := Sample.grid Sample.slats in
  let endPx := computeDateTop Sample.startOfDay this
                 (JS.ofZ (90 * Sample.minute)) (Some (JS.ofZ 0)) in
  exists seg',
    computeSegVerticals Sample.startOfDay this
      [Sample.seg (60 * Sample.minute) (90 * Sample.minute)] = Ok [seg'] /\
    (endPx == JS.ofZ 75)%num /\
    (coordinate (bottom seg') == endPx)%num /\
    (Spec.distanceFromBottomEdge (getTotalSlatHeight this) endPx == JS.ofZ 55)%num /\
    ~ (coordinate (bottom seg') ==
       Spec.distanceFromBottomEdge (getTotalSlatHeight this) endPx)%num.
Proof.
  cbv zeta. eexists. split; [reflexivity|].
  split; [vm_compute; reflexivity|].
  split; [vm_compute; reflexivity|].
  split; [vm_compute; reflexivity|].
  vm_compute. discriminate.
Qed.

(** * Further properties of the code *)

(** ** Option processing, continued *)

Lemma requestedSnapDuration_falsy (options : Options) :
  truthy (opt_snapDuration options) = false ->
  requestedSnapDuration options = createDuration (opt_slotDuration options).
Proof.
  unfold requestedSnapDuration. destruct (opt_snapDuration options) as [input|].
  - intros ->. reflexivity.
  - reflexivity.
Qed.

(** X2: when no snap duration is configured (the option is absent, or the
    number 0 or NaN), the snap duration is the slot duration and there is one
    snap per slot, whatever the slot duration is. *)
Theorem processOptions_without_snapDuration (this : TimeCols) (options : Options) :
  truthy (opt_snapDuration options) = false ->
  snapDuration (_processOptions this options) = createDuration (opt_slotDuration options) /\
  (snapsPerSlot (_processOptions this options) == JS.ofZ 1)%num.
Proof.
  intros H. unfold _processOptions.
  rewrite (requestedSnapDuration_falsy options H).
  destruct (wholeDivideDurations _ _) as [r|] eqn:E.
  - apply wholeDivideDurations_Some in E.
    destruct E as (s & p & Hs & Hp & Hnz & -> & _).
    rewrite Hs in Hp. injection Hp as <-.
    cbn [withOptions snapsPerSlot snapDuration]. split; [reflexivity|].
    simpl. change (inject_Z 1) with 1. field. exact Hnz.
  - cbn [withOptions snapsPerSlot snapDuration]. split; reflexivity.
Qed.

Lemma processOptions_without_snapDuration_witness :
  let options := {| opt_slotDuration := InParsed (Sample.ms (30 * Sample.minute));
                    opt_snapDuration := Some (InNumber (JS.ofZ 0)) |} in
  snapDuration (_processOptions (Sample.grid Sample.slats) options) =
    Sample.ms (30 * Sample.minute) /\
  (snapsPerSlot (_processOptions (Sample.grid Sample.slats) options) == JS.ofZ 1)%num.
Proof.
  cbv zeta.
  apply (processOptions_without_snapDuration (Sample.grid Sample.slats)
           {| opt_slotDuration := InParsed (Sample.ms (30 * Sample.minute));
              opt_snapDuration := Some (InNumber (JS.ofZ 0)) |}).
  reflexivity.
Defined.

(** ** Time to pixel, continued *)

Lemma Qfloor_unique (q : Q) (k : Z) :
  inject_Z k <= q -> q < inject_Z k + 1 -> Qfloor q = k.
Proof.
  intros Hlo Hhi.
  assert (H1 : (k <= Qfloor q)%Z).
  { rewrite <- (Qfloor_Z k). apply Qfloor_resp_le. exact Hlo. }
  assert (H2 : (Qfloor q < k + 1)%Z).
  { rewrite Zlt_Qlt, inject_Z_plus. change (inject_Z 1) with 1.
    apply Qle_lt_trans with q; [apply Qfloor_le | exact Hhi]. }
  lia.
Qed.

(** X3: linear interpolation within a slat.  With finite times and a positive
    slot duration, the time [minTime + (k + f) * slotDuration], where [k] is
    the index of a slat and [0 <= f < 1], maps to the top of that slat plus
    the fraction [f] of its height; in particular a slot boundary ([f = 0])
    maps exactly to the top of its slat. *)
Theorem computeTimeTop_interpolates (this : TimeCols) (duration : Duration)
    (a m s f : Q) (k : nat) (r : Region) :
  milliseconds duration = Fin a ->
  milliseconds (minTime this) = Fin m ->
  milliseconds (slotDuration this) = Fin s ->
  0 < s ->
  nth_error (slatPositions this) k = Some r ->
  0 <= f -> f < 1 ->
  a == m + (inject_Z (Z.of_nat k) + f) * s ->
  (computeTimeTop this duration == Fin (offset r + extent r * f))%num /\
  (f == 0 -> (computeTimeTop this duration == Fin (offset r))%num).
Proof.
  intros Ha Hm Hs Hpos Hr Hf0 Hf1 Hk.
  assert (Hnz : ~ s == 0) by lra.
  assert (Hklen : (k < slatEls_length this)%nat).
  { unfold slatEls_length. apply nth_error_Some. congruence. }
  assert (Hlen : (1 <= Z.of_nat (slatEls_length this))%Z) by lia.
  destruct (computeTimeTop_finite this duration a m s Ha Hm Hs Hnz Hlen)
    as (c & r' & _ & _ & _ & _ & _ & Hmid & _ & _ & Hr' & Htop).
  set (len := Z.of_nat (slatEls_length this)) in *.
  assert (Hx : (a - m) / s == inject_Z (Z.of_nat k) + f).
  { rewrite Hk. field. exact Hnz. }
  assert (Hk0 : 0 <= inject_Z (Z.of_nat k)) by apply ofNat_nonneg.
  assert (Hk1 : inject_Z (Z.of_nat k) + 1 <= inject_Z len).
  { change 1 with (inject_Z 1). rewrite <- inject_Z_plus, <- Zle_Qle. lia. }
  assert (Hc : c == inject_Z (Z.of_nat k) + f).
  { rewrite <- Hx. apply Hmid; rewrite Hx; lra. }
  assert (Hfloor : Qfloor c = Z.of_nat k) by (apply Qfloor_unique; lra).
  rewrite Hfloor in Hr', Htop.
  rewrite Z.min_l, Nat2Z.id in Hr' by lia. rewrite Z.min_l in Htop by lia.
  rewrite Hr in Hr'. injection Hr' as <-.
  assert (E : (computeTimeTop this duration == Fin (offset r + extent r * f))%num).
  { rewrite Htop. simpl. rewrite Hc. ring. }
  split; [exact E|].
  intros H0. rewrite E. simpl. rewrite H0. ring.
Qed.

Lemma computeTimeTop_interpolates_witness :
  (computeTimeTop (Sample.grid Sample.slats) (Sample.ms (150 * Sample.minute)) ==
   Fin (100 + 30 * (1 # 2)))%num.
Proof.
  refine (proj1 (computeTimeTop_interpolates (Sample.grid Sample.slats)
              (Sample.ms (150 * Sample.minute))
              (inject_Z (150 * Sample.minute)) (inject_Z 0) (inject_Z (60 * Sample.minute))
              (1 # 2) 2 {| offset := 100; extent := 30 |}
              eq_refl eq_refl eq_refl _ eq_refl _ _ _));
    reflexivity || discriminate.
Defined.

(** X4: under the cache invariant, with finite times, a non-zero slot
    duration and at least one slat, the pixel of any time lies between the top
    of the first slat and the bottom of the last one. *)
Theorem computeTimeTop_bounded (this : TimeCols) (duration : Duration)
    (a m s : Q) (first last : Region) :
  milliseconds duration = Fin a ->
  milliseconds (minTime this) = Fin m ->
  milliseconds (slotDuration this) = Fin s ->
  ~ s == 0 ->
  Spec.ordered (slatPositions this) ->
  nth_error (slatPositions this) 0 = Some first ->
  nth_error (slatPositions this) (slatEls_length this - 1) = Some last ->
  exists px : Q,
    (computeTimeTop this duration == Fin px)%num /\
    offset first <= px /\ px <= farEdge last.
Proof.
  intros Ha Hm Hs Hnz Hord Hfirst Hlast.
  assert (Hlen : (1 <= Z.of_nat (slatEls_length this))%Z).
  { unfold slatEls_length. destruct (slatPositions this); [discriminate | simpl; lia]. }
  destruct (computeTimeTop_finite this duration a m s Ha Hm Hs Hnz Hlen)
    as (c & r & _ & Hc0 & Hc1 & _ & _ & _ & _ & Hi & Hr & Htop).
  set (len := Z.of_nat (slatEls_length this)) in *.
  eexists. split; [exact Htop|]. split.
  - pose proof (interpolation_monotone (slatPositions this) 0 c first r Hord) as H.
    cbv zeta in H. fold (slatEls_length this) in H. fold len in H.
    change (Qfloor 0) with 0%Z in H. rewrite (Z.min_l 0) in H by lia.
    assert (E : offset first == offset first + extent first * (0 - inject_Z 0)) by ring.
    rewrite E. apply H; auto; try lra; try lia; apply Hi.
  - pose proof (interpolation_monotone (slatPositions this) c (inject_Z len) r last Hord) as H.
    cbv zeta in H. fold (slatEls_length this) in H. fold len in H.
    rewrite Qfloor_Z in H. rewrite (Z.min_r len) in H by lia.
    assert (E : farEdge last ==
                offset last + extent last * (inject_Z len - inject_Z (len - 1))).
    { unfold farEdge. rewrite inject_Z_pred. ring. }
    rewrite E. apply H; auto; try lra; try lia; try apply Hi.
    replace (Z.to_nat (len - 1)) with (slatEls_length this - 1)%nat by (subst len; lia).
    exact Hlast.
Qed.

Lemma computeTimeTop_bounded_witness :
  exists px : Q,
    (computeTimeTop (Sample.grid Sample.slats) (Sample.ms (-7 * Sample.minute)) == Fin px)%num /\
    0 <= px /\ px <= 130.
Proof.
  apply (computeTimeTop_bounded (Sample.grid Sample.slats) (Sample.ms (-7 * Sample.minute))
           (inject_Z (-7 * Sample.minute)) (inject_Z 0) (inject_Z (60 * Sample.minute))
           {| offset := 0; extent := 50 |} {| offset := 100; extent := 30 |});
    try reflexivity.
  - vm_compute. discriminate.
  - exact sample_slats_ordered.
Defined.

(** The pixel of a time depends on the number of milliseconds only. *)
Lemma computeTimeTop_eqv (this : TimeCols) (d d' : Duration) :
  (milliseconds d == milliseconds d')%num ->
  (computeTimeTop this d == computeTimeTop this d')%num.
Proof.
  intros H. unfold computeTimeTop, slatIndexOf, getHeight, slatCoverageOf.
  cbv zeta. rewrite H. reflexivity.
Qed.

Section DateTop.

Variable startOfDay : DateMarker -> DateMarker.

(** X5: the pixel of a date depends only on the time elapsed since the start
    of day it is measured from: the same time of day on another day, measured
    from that day's start, maps to the same pixel. *)
Theorem computeDateTop_shift (this : TimeCols) (when dayDate shift : Q) :
  (computeDateTop startOfDay this (Fin (when + shift)) (Some (Fin (dayDate + shift))) ==
   computeDateTop startOfDay this (Fin when) (Some (Fin dayDate)))%num.
Proof.
  unfold computeDateTop. apply computeTimeTop_eqv. simpl. ring.
Qed.

Lemma computeSegVertical_error (this : TimeCols) (seg : Seg) :
  computeSegVertical startOfDay this seg = TypeError <->
  (List.length (cells this) <= col seg)%nat.
Proof.
  unfold computeSegVertical.
  destruct (nth_error (cells this) (col seg)) as [dayDate|] eqn:E.
  - assert (Hcol : (col seg < List.length (cells this))%nat).
    { apply nth_error_Some. congruence. }
    split; [discriminate | lia].
  - apply nth_error_None in E. split; auto.
Qed.

(** X6: [computeSegVerticals] raises a [TypeError] exactly when some segment
    names a column that has no cell; otherwise it returns as many segments
    as it was given. *)
Theorem computeSegVerticals_error (this : TimeCols) (segs : list Seg) :
  (computeSegVerticals startOfDay this segs = TypeError <->
   Exists (fun seg => (List.length (cells this) <= col seg)%nat) segs) /\
  (forall segs', computeSegVerticals startOfDay this segs = Ok segs' ->
                 List.length segs' = List.length segs).
Proof.
  induction segs as [|seg rest [IHerr IHlen]].
  - split.
    + split; [discriminate | intros H; inversion H].
    + intros segs' H. injection H as <-. reflexivity.
  - simpl. pose proof (computeSegVertical_error this seg) as Hseg.
    destruct (computeSegVertical startOfDay this seg) as [seg'|]; simpl bind.
    + destruct (computeSegVerticals startOfDay this rest) as [rest'|]; simpl bind.
      * split.
        -- split; [discriminate|].
           intros H. inversion H as [? ? H1 | ? ? H1]; subst.
           ++ apply Hseg in H1. discriminate.
           ++ apply IHerr in H1. discriminate.
        -- intros segs' H. injection H as <-. simpl. f_equal. apply IHlen. reflexivity.
      * split; [|discriminate].
        split; [|reflexivity]. intros _. right. apply IHerr. reflexivity.
    + split; [|discriminate].
      split; [|reflexivity]. intros _. left. apply Hseg. reflexivity.
Qed.

(** X7: computing the verticals again on segments that were already processed
    changes nothing: the extents depend on the column and the time range
    only. *)
Theorem computeSegVerticals_idempotent (this : TimeCols) (segs segs' : list Seg) :
  computeSegVerticals startOfDay this segs = Ok segs' ->
  computeSegVerticals startOfDay this segs' = Ok segs'.
Proof.
  revert segs'. induction segs as [|seg rest IH]; intros segs' H.
  - injection H as <-. reflexivity.
  - simpl in H.
    destruct (computeSegVertical startOfDay this seg) as [seg'|] eqn:Eseg; [|discriminate].
    simpl in H.
    destruct (computeSegVerticals startOfDay this rest) as [rest'|] eqn:Erest; [|discriminate].
    injection H as <-. simpl.
    assert (E : computeSegVertical startOfDay this seg' = Ok seg').
    { unfold computeSegVertical in Eseg |- *.
      destruct (nth_error (cells this) (col seg)) as [dayDate|] eqn:Ecell; [|discriminate].
      injection Eseg as <-. simpl. rewrite Ecell. reflexivity. }
    rewrite E. simpl. rewrite (IH rest' eq_refl). reflexivity.
Qed.

End DateTop.

Lemma computeSegVerticals_idempotent_witness :
  exists segs',
    computeSegVerticals Sample.startOfDay (Sample.grid Sample.slats)
      [Sample.seg (60 * Sample.minute) (75 * Sample.minute)] = Ok segs' /\
    computeSegVerticals Sample.startOfDay (Sample.grid Sample.slats) segs' = Ok segs'.
Proof.
  eexists. split; [reflexivity|].
  apply (computeSegVerticals_idempotent Sample.startOfDay (Sample.grid Sample.slats)
           [Sample.seg (60 * Sample.minute) (75 * Sample.minute)]).
  reflexivity.
Defined.

Lemma computeSegVerticals_each (startOfDay : DateMarker -> DateMarker)
    (this : TimeCols) (segs : list Seg) :
  forall segs',
    computeSegVerticals startOfDay this segs = Ok segs' ->
    Forall2 (fun seg seg' => computeSegVertical startOfDay this seg = Ok seg') segs segs'.
Proof.
  induction segs as [|seg rest IH]; intros segs' H; simpl in H.
  - injection H as <-. constructor.
  - destruct (computeSegVertical startOfDay this seg) as [seg'|] eqn:Eseg; [|discriminate].
    simpl in H.
    destruct (computeSegVerticals startOfDay this rest) as [rest'|]; [|discriminate].
    injection H as <-. constructor; [exact Eseg | apply IH; reflexivity].
Qed.

Lemma Forall2_nth_error {A B : Type} (R : A -> B -> Prop) (l : list A) (l' : list B) :
  Forall2 R l l' ->
  forall (i : nat) (a : A) (b : B),
    nth_error l i = Some a -> nth_error l' i = Some b -> R a b.
Proof.
  induction 1 as [|x y l l' Hxy _ IH]; intros i a b Ha Hb.
  - destruct i; discriminate.
  - destruct i as [|i]; simpl in Ha, Hb.
    + injection Ha as <-. injection Hb as <-. exact Hxy.
    + exact (IH i a b Ha Hb).
Qed.

(** X8: without a minimum event height, under the cache invariant and with
    finite times and a positive slot duration, a processed segment that does
    not end before it starts has its top at the pixel of its start, its bottom
    exactly at the pixel of its end, and its top not below its bottom. *)
Theorem computeSegVerticals_no_min_height (startOfDay : DateMarker -> DateMarker)
    (this : TimeCols) (segs segs' : list Seg) (i : nat) (seg seg' : Seg)
    (from to day m s : Q) :
  computeSegVerticals startOfDay this segs = Ok segs' ->
  nth_error segs i = Some seg ->
  nth_error segs' i = Some seg' ->
  nth_error (cells this) (col seg) = Some (Fin day) ->
  start seg = Fin from -> end_ seg = Fin to -> from <= to ->
  milliseconds (minTime this) = Fin m ->
  milliseconds (slotDuration this) = Fin s ->
  0 < s ->
  slatPositions this <> [] ->
  Spec.ordered (slatPositions this) ->
  (timeGridEventMinHeight this == JS.ofZ 0)%num ->
  exists topPx bottomPx : num,
    top seg' = Some topPx /\ bottom seg' = Some bottomPx /\
    topPx = computeDateTop startOfDay this (Fin from) (Some (Fin day)) /\
    (bottomPx == computeDateTop startOfDay this (Fin to) (Some (Fin day)))%num /\
    JS.leb topPx bottomPx = true.
Proof.
  intros Hsegs Hseg Hseg' Hday Hfrom Hto Hle Hm Hs Hpos Hslats Hord Hmin.
  pose proof (Forall2_nth_error _ _ _ (computeSegVerticals_each startOfDay this segs segs' Hsegs)
                i seg seg' Hseg Hseg') as E.
  cbv beta in E. unfold computeSegVertical in E. rewrite Hday, Hfrom, Hto in E.
  injection E as <-. cbn [top bottom].
  do 2 eexists. split; [reflexivity|]. split; [reflexivity|]. split; [reflexivity|].
  unfold computeDateTop.
  set (dFrom := createDuration (InNumber (Fin from - Fin day)%num)).
  set (dTo := createDuration (InNumber (Fin to - Fin day)%num)).
  assert (Hnz : ~ s == 0) by lra.
  assert (Hlen : (1 <= Z.of_nat (slatEls_length this))%Z).
  { unfold slatEls_length. destruct (slatPositions this); [congruence | simpl; lia]. }
  assert (Hmono : JS.leb (computeTimeTop this dFrom) (computeTimeTop this dTo) = true).
  { apply (computeTimeTop_monotone this dFrom dTo (from + - day) (to + - day) m s);
      auto; lra. }
  destruct (computeTimeTop_finite this dFrom (from + - day) m s eq_refl Hm Hs Hnz Hlen)
    as (c1 & r1 & _ & _ & _ & _ & _ & _ & _ & _ & _ & Htop1).
  destruct (computeTimeTop_finite this dTo (to + - day) m s eq_refl Hm Hs Hnz Hlen)
    as (c2 & r2 & _ & _ & _ & _ & _ & _ & _ & _ & _ & Htop2).
  cbv zeta in Htop1, Htop2.
  rewrite Htop1, Htop2 in Hmono. rewrite Hmin, Htop1, Htop2.
  simpl in Hmono. qprops. simpl JS.add. rewrite !Math_max_Fin.
  change (inject_Z 0) with 0.
  set (p1 := offset r1 + _) in *. set (p2 := offset r2 + _) in *.
  destruct (Qle_bool (p1 + 0) p2) eqn:Eb; qprops.
  - split; [reflexivity|]. simpl. qprops. exact Hmono.
  - split; simpl; qprops; lra.
Qed.

Lemma computeSegVerticals_no_min_height_witness :
  exists seg' topPx bottomPx,
    computeSegVerticals Sample.startOfDay (Sample.grid Sample.slats)
      [Sample.seg (60 * Sample.minute) (90 * Sample.minute)] = Ok [seg'] /\
    top seg' = Some topPx /\ bottom seg' = Some bottomPx /\
    JS.leb topPx bottomPx = true.
Proof.
  eexists.
  destruct (computeSegVerticals_no_min_height Sample.startOfDay (Sample.grid Sample.slats)
              [Sample.seg (60 * Sample.minute) (90 * Sample.minute)] _ 0 _ _
              (inject_Z (60 * Sample.minute)) (inject_Z (90 * Sample.minute))
              (inject_Z 0) (inject_Z 0) (inject_Z (60 * Sample.minute))
              eq_refl eq_refl eq_refl eq_refl eq_refl eq_refl)
    as (topPx & bottomPx & Ht & Hb & _ & _ & Hleb);
    try reflexivity; try discriminate; try exact sample_slats_ordered.
  exists topPx, bottomPx. split; [reflexivity|]. auto.
Defined.

(** ** Hit system, continued *)

(** X9: the rectangle of a hit is the cell that holds the pointer: its left
    and right edges are those of the found column, its top and bottom those
    of the found slat, and the position lies inside it (right and bottom
    excluded); the hit names the column both as [col] and as [dayEl] and is
    never an all-day hit. *)
Theorem positionToHit_rect (this : TimeCols) (positionLeft positionTop : Q) (hit : Hit) :
  positionToHit this positionLeft positionTop = Ok (Some hit) ->
  exists (column slat : Region) (slatIndex : nat),
    nth_error (colPositions this) (hit_col hit) = Some column /\
    nth_error (slatPositions this) slatIndex = Some slat /\
    left (relativeRect hit) = Fin (offset column) /\
    right (relativeRect hit) = Fin (farEdge column) /\
    rect_top (relativeRect hit) = Fin (offset slat) /\
    rect_bottom (relativeRect hit) = Fin (offset slat + extent slat) /\
    offset column <= positionLeft /\ positionLeft < farEdge column /\
    offset slat <= positionTop /\ positionTop < offset slat + extent slat /\
    dayEl hit = hit_col hit /\ allDay hit = false.
Proof.
  intros H.
  destruct (leftToIndex (colPositions this) positionLeft) as [ci|] eqn:Hcol;
    [|unfold positionToHit in H; rewrite Hcol in H; discriminate].
  destruct (topToIndex (slatPositions this) positionTop) as [si|] eqn:Hslat;
    [|unfold positionToHit in H; rewrite Hcol, Hslat in H; discriminate].
  destruct (nth_error (cells this) ci) as [dayDate|] eqn:Hcell;
    [|unfold positionToHit in H; rewrite Hcol, Hslat, Hcell in H; discriminate].
  rewrite (positionToHit_found this _ _ _ _ _ Hcol Hslat Hcell) in H.
  cbv zeta in H.
  destruct (positionToIndex_Some _ _ _ Hcol) as (column & Hc & Hc1 & Hc2).
  destruct (positionToIndex_Some _ _ _ Hslat) as (slat & Hs & Hs1 & Hs2).
  unfold getHeight, tops, lefts, rights in H.
  rewrite !index_ofNat, !nth_error_map, Hc, Hs in H.
  cbn [option_map JS.toNumber JS.add] in H.
  injection H as <-.
  exists column, slat, si.
  cbn [hit_col relativeRect left right rect_top rect_bottom dayEl allDay].
  unfold farEdge in *. repeat split; auto.
Qed.

Lemma positionToHit_rect_witness :
  exists hit,
    positionToHit (Sample.grid Sample.slats) 50 115 = Ok (Some hit) /\
    left (relativeRect hit) = Fin 0 /\ rect_top (relativeRect hit) = Fin 100.
Proof.
  eexists. split; [reflexivity|].
  destruct (positionToHit_rect (Sample.grid Sample.slats) 50 115 _ eq_refl)
    as (column & slat & si & Hc & Hs & Hl & _ & Ht & _).
  simpl in Hc. injection Hc as <-.
  split; [exact Hl | reflexivity].
Defined.

(** X10: [positionToHit] raises a [TypeError] exactly when the column is
    found, the slat is found, and there is no cell for the column; so it
    never raises when there are at least as many cells as columns. *)
Theorem positionToHit_error (this : TimeCols) (positionLeft positionTop : Q) :
  (positionToHit this positionLeft positionTop = TypeError <->
   exists colIndex slatIndex,
     leftToIndex (colPositions this) positionLeft = Some colIndex /\
     topToIndex (slatPositions this) positionTop = Some slatIndex /\
     (List.length (cells this) <= colIndex)%nat) /\
  ((List.length (colPositions this) <= List.length (cells this))%nat ->
   positionToHit this positionLeft positionTop <> TypeError).
Proof.
  assert (Hiff : positionToHit this positionLeft positionTop = TypeError <->
                 exists colIndex slatIndex,
                   leftToIndex (colPositions this) positionLeft = Some colIndex /\
                   topToIndex (slatPositions this) positionTop = Some slatIndex /\
                   (List.length (cells this) <= colIndex)%nat).
  { unfold positionToHit.
    destruct (leftToIndex _ _) as [ci|] eqn:Hcol.
    - destruct (topToIndex _ _) as [si|] eqn:Hslat.
      + destruct (nth_error (cells this) ci) as [dayDate|] eqn:E.
        * assert (Hlt : (ci < List.length (cells this))%nat).
          { apply nth_error_Some. congruence. }
          split; [discriminate|].
          intros (ci' & si' & H1 & _ & H3). injection H1 as Eci. lia.
        * apply nth_error_None in E. split; [|reflexivity].
          intros _. exists ci, si. auto.
      + split; [discriminate|]. intros (ci' & si' & _ & H & _). discriminate.
    - split.
      + discriminate.
      + intros (ci' & si' & H & _). discriminate. }
  split; [exact Hiff|].
  intros Hcells H. apply Hiff in H. destruct H as (ci & si & Hcol & _ & Hle).
  destruct (positionToIndex_Some _ _ _ Hcol) as (column & Hc & _).
  assert (Hlt : (ci < List.length (colPositions this))%nat).
  { apply nth_error_Some. congruence. }
  lia.
Qed.

Lemma positionToHit_error_witness :
  positionToHit (Sample.grid Sample.slats) 50 115 <> TypeError.
Proof.
  apply (positionToHit_error (Sample.grid Sample.slats) 50 115).
  simpl. lia.
Defined.

(** X11: when every slat has zero extent, or every column has, as in a cache
    built with zeros, no position at all is a hit. *)
Theorem positionToHit_zero_extents (this : TimeCols) (positionLeft positionTop : Q) :
  Forall (fun r => extent r == 0) (slatPositions this) \/
  Forall (fun r => extent r == 0) (colPositions this) ->
  positionToHit this positionLeft positionTop = Ok None.
Proof.
  assert (Hnone : forall (c : PositionCache) (position : Q),
             Forall (fun r => extent r == 0) c -> positionToIndex c position = None).
  { intros c position H. apply positionToIndex_outside.
    intros r Hin [H1 H2]. rewrite Forall_forall in H. specialize (H r Hin).
    unfold farEdge in H2. lra. }
  unfold positionToHit, leftToIndex, topToIndex.
  intros [H | H]; rewrite (Hnone _ _ H).
  - destruct (positionToIndex _ _); reflexivity.
  - reflexivity.
Qed.

Lemma positionToHit_zero_extents_witness :
  positionToHit (Sample.grid [ {| offset := 0; extent := 0 |}; {| offset := 0; extent := 0 |} ])
                50 0 = Ok None.
Proof.
  apply positionToHit_zero_extents. left.
  repeat constructor.
Defined.

(** ** Grouping and attaching segments *)

Lemma setAt_length {A : Type} (arr : list A) (i : nat) (v : A) :
  List.length (setAt arr i v) = List.length arr.
Proof.
  revert i. induction arr as [|a rest IH]; intros [|i]; simpl; auto.
Qed.

Lemma setAt_map_seq {A : Type} (g : nat -> A) (v : A) (n : nat) :
  forall from i : nat,
    setAt (map g (seq from n)) i v =
    map (fun c => if Nat.eqb c (from + i) then v else g c) (seq from n).
Proof.
  induction n as [|n IH]; intros from i; simpl.
  - destruct i; reflexivity.
  - destruct i as [|i].
    + rewrite Nat.add_0_r, Nat.eqb_refl. f_equal.
      apply map_ext_in. intros c Hc. apply in_seq in Hc.
      destruct (Nat.eqb_spec c from); [lia | reflexivity].
    + destruct (Nat.eqb_spec from (from + S i)); [lia|]. f_equal.
      rewrite IH. apply map_ext. intros c.
      replace (S from + i)%nat with (from + S i)%nat by lia. reflexivity.
Qed.

Lemma pushSeg_groupsOf (done : list Seg) (seg : Seg) (colCnt : nat) :
  (col seg < colCnt)%nat ->
  pushSeg (groupsOf done colCnt) seg = Ok (groupsOf (done ++ [seg]) colCnt).
Proof.
  intros Hcol. unfold pushSeg, groupsOf.
  rewrite nth_error_map, nth_error_seq.
  destruct (Nat.ltb_spec (col seg) colCnt) as [_|]; [|lia]. cbn [option_map Nat.add].
  rewrite (setAt_map_seq (fun c => filter (fun seg0 => Nat.eqb (col seg0) c) done)
             _ colCnt 0 (col seg)).
  f_equal.
  apply map_ext. intros c. rewrite filter_app. simpl.
  destruct (Nat.eqb_spec c (col seg)) as [-> | Hne].
  - rewrite Nat.eqb_refl. reflexivity.
  - destruct (Nat.eqb_spec (col seg) c); [congruence|].
    rewrite app_nil_r. reflexivity.
Qed.

Lemma pushSegs_groupsOf (colCnt : nat) (segs : list Seg) :
  forall done : list Seg,
    Forall (fun seg => (col seg < colCnt)%nat) segs ->
    pushSegs (groupsOf done colCnt) segs = Ok (groupsOf (done ++ segs) colCnt).
Proof.
  induction segs as [|seg rest IH]; intros done Hcols; simpl.
  - rewrite app_nil_r. reflexivity.
  - inversion Hcols as [|? ? Hcol Hrest]; subst.
    rewrite (pushSeg_groupsOf done seg colCnt Hcol). simpl.
    rewrite (IH (done ++ [seg]) Hrest), <- app_assoc. reflexivity.
Qed.

Lemma groupsOf_nil (colCnt : nat) : groupsOf [] colCnt = repeat [] colCnt.
Proof.
  unfold groupsOf. generalize 0%nat.
  induction colCnt as [|n IH]; intros from; simpl; [reflexivity|].
  rewrite IH. reflexivity.
Qed.

(** X14: when every segment names one of the [colCnt] columns,
    [groupSegsByCol] returns [colCnt] groups, and the group of a column holds
    exactly the segments of that column, in the order of the input. *)
Theorem groupSegsByCol_groups (segs : list Seg) (colCnt : nat) :
  Forall (fun seg => (col seg < colCnt)%nat) segs ->
  exists segsByCol,
    groupSegsByCol segs colCnt = Ok segsByCol /\
    List.length segsByCol = colCnt /\
    forall c : nat,
      (c < colCnt)%nat ->
      nth_error segsByCol c = Some (filter (fun seg => Nat.eqb (col seg) c) segs).
Proof.
  intros Hcols. exists (groupsOf segs colCnt). split; [|split].
  - unfold groupSegsByCol. rewrite <- groupsOf_nil.
    apply (pushSegs_groupsOf colCnt segs [] Hcols).
  - unfold groupsOf. rewrite length_map, length_seq. reflexivity.
  - intros c Hc. unfold groupsOf. rewrite nth_error_map, nth_error_seq.
    destruct (Nat.ltb_spec c colCnt); [reflexivity | lia].
Qed.

Lemma groupSegsByCol_groups_witness :
  exists segsByCol,
    groupSegsByCol [Sample.seg 0 1; Sample.seg 2 3] 2 = Ok segsByCol /\
    nth_error segsByCol 0 = Some [Sample.seg 0 1; Sample.seg 2 3] /\
    nth_error segsByCol 1 = Some [].
Proof.
  destruct (groupSegsByCol_groups [Sample.seg 0 1; Sample.seg 2 3] 2)
    as (segsByCol & E & _ & H).
  - repeat constructor.
  - exists segsByCol. split; [exact E|]. split.
    + apply (H 0%nat). lia.
    + apply (H 1%nat). lia.
Defined.

Lemma pushSegs_error (segs : list Seg) :
  forall segsByCol : list (list Seg),
    pushSegs segsByCol segs = TypeError <->
    Exists (fun seg => (List.length segsByCol <= col seg)%nat) segs.
Proof.
  induction segs as [|seg rest IH]; intros segsByCol; simpl.
  - split; [discriminate | intros H; inversion H].
  - unfold pushSeg.
    destruct (nth_error segsByCol (col seg)) as [group|] eqn:E; simpl.
    + assert (Hlt : (col seg < List.length segsByCol)%nat).
      { apply nth_error_Some. congruence. }
      rewrite IH, setAt_length. split.
      * intros H. right. exact H.
      * intros H. inversion H; subst; [lia | assumption].
    + apply nth_error_None in E. split; [|reflexivity].
      intros _. left. exact E.
Qed.

(** X15: [groupSegsByCol] raises a [TypeError] exactly when some segment names
    a column at or beyond [colCnt]; in particular any segment at all makes it
    fail when there is no column. *)
Theorem groupSegsByCol_error (segs : list Seg) (colCnt : nat) :
  groupSegsByCol segs colCnt = TypeError <->
  Exists (fun seg => (colCnt <= col seg)%nat) segs.
Proof.
  unfold groupSegsByCol. rewrite pushSegs_error, repeat_length. reflexivity.
Qed.

Lemma concat_insert (x : Seg) (F : nat -> list Seg) (k n : nat) :
  forall from : nat,
    (from <= k < from + n)%nat ->
    Permutation
      (List.concat (map (fun c => if Nat.eqb k c then x :: F c else F c) (seq from n)))
      (x :: List.concat (map F (seq from n))).
Proof.
  induction n as [|n IH]; intros from Hk; [lia|].
  simpl. destruct (Nat.eqb_spec k from) as [-> | Hne].
  - simpl. constructor.
    apply Permutation_app_head.
    assert (E : map (fun c => if Nat.eqb from c then x :: F c else F c) (seq (S from) n) =
                map F (seq (S from) n)).
    { apply map_ext_in. intros c Hc. apply in_seq in Hc.
      destruct (Nat.eqb_spec from c); [lia | reflexivity]. }
    rewrite E. reflexivity.
  - apply Permutation_trans with (F from ++ x :: List.concat (map F (seq (S from) n))).
    + apply Permutation_app_head. apply IH. lia.
    + symmetry. apply Permutation_middle.
Qed.

(** Grouping by column loses and repeats nothing. *)
Lemma groupsOf_Permutation (colCnt : nat) (segs : list Seg) :
  Forall (fun seg => (col seg < colCnt)%nat) segs ->
  Permutation (List.concat (groupsOf segs colCnt)) segs.
Proof.
  induction 1 as [|seg rest Hcol _ IH].
  - unfold groupsOf. simpl. generalize 0%nat.
    induction colCnt as [|n IHn]; intros from; simpl; [constructor | apply IHn].
  - apply Permutation_trans with (seg :: List.concat (groupsOf rest colCnt)).
    + unfold groupsOf. simpl filter.
      apply (concat_insert seg
               (fun c => filter (fun seg0 => Nat.eqb (col seg0) c) rest)
               (col seg) colCnt 0).
      lia.
    + constructor. exact IH.
Qed.

Lemma appendSegs_snd (segsByCol : list (list Seg)) :
  forall colIndex : nat,
    map snd (appendSegs colIndex segsByCol) = List.concat segsByCol.
Proof.
  induction segsByCol as [|group rest IH]; intros colIndex; simpl; [reflexivity|].
  rewrite map_app, map_map, IH. simpl. rewrite map_id. reflexivity.
Qed.

Lemma appendSegs_In (segsByCol : list (list Seg)) :
  forall (colIndex c : nat) (seg : Seg),
    In (c, seg) (appendSegs colIndex segsByCol) ->
    exists group, (colIndex <= c)%nat /\
                  nth_error segsByCol (c - colIndex) = Some group /\ In seg group.
Proof.
  induction segsByCol as [|group rest IH]; intros colIndex c seg Hin; simpl in Hin.
  - contradiction.
  - apply in_app_or in Hin. destruct Hin as [Hin | Hin].
    + apply in_map_iff in Hin. destruct Hin as (seg' & E & Hin).
      injection E as <- <-. exists group. rewrite Nat.sub_diag. auto.
    + destruct (IH (S colIndex) c seg Hin) as (g & Hle & Hg & Hseg).
      exists g. split; [lia|]. split; [|exact Hseg].
      replace (c - colIndex)%nat with (S (c - S colIndex)) by lia. exact Hg.
Qed.

Lemma concat_map_Permutation (f : list Seg -> list Seg) (groups : list (list Seg)) :
  (forall l, Permutation (f l) l) ->
  Permutation (List.concat (map f groups)) (List.concat groups).
Proof.
  intros Hf. induction groups as [|g rest IH]; simpl; [constructor|].
  apply Permutation_app; [apply Hf | exact IH].
Qed.

(** X16: when every segment names one of the containers and the sort only
    reorders its input, [attachSegs] succeeds with one group per container;
    the group of a column is the sorted list of the segments of that column;
    every element is appended to the container of its own segment's column;
    every segment is appended exactly once; and [detachSegs] of the returned
    groups removes the appended elements, in the order they were appended. *)
Theorem attachSegs_appends (sortEventSegs : list Seg -> list Seg)
    (segs : list Seg) (containerEls : nat) :
  (forall l, Permutation (sortEventSegs l) l) ->
  Forall (fun seg => (col seg < containerEls)%nat) segs ->
  exists segsByCol appended,
    attachSegs sortEventSegs segs containerEls = Ok (segsByCol, appended) /\
    List.length segsByCol = containerEls /\
    (forall c, (c < containerEls)%nat ->
       nth_error segsByCol c =
       Some (sortEventSegs (filter (fun seg => Nat.eqb (col seg) c) segs))) /\
    Forall (fun append => col (snd append) = fst append) appended /\
    Permutation (map snd appended) segs /\
    detachSegs segsByCol = map snd appended.
Proof.
  intros Hsort Hcols.
  exists (map sortEventSegs (groupsOf segs containerEls)).
  exists (appendSegs 0 (map sortEventSegs (groupsOf segs containerEls))).
  split; [|split; [|split; [|split; [|split]]]].
  - unfold attachSegs, groupSegsByCol. rewrite <- groupsOf_nil.
    rewrite (pushSegs_groupsOf containerEls segs [] Hcols). reflexivity.
  - unfold groupsOf. rewrite !length_map, length_seq. reflexivity.
  - intros c Hc. unfold groupsOf. rewrite !nth_error_map, nth_error_seq.
    destruct (Nat.ltb_spec c containerEls); [reflexivity | lia].
  - apply Forall_forall. intros [c seg] Hin. simpl.
    apply appendSegs_In in Hin. destruct Hin as (group & _ & Hgroup & Hseg).
    rewrite Nat.sub_0_r in Hgroup. unfold groupsOf in Hgroup.
    rewrite !nth_error_map, nth_error_seq in Hgroup.
    destruct (Nat.ltb_spec c containerEls); [|discriminate].
    simpl in Hgroup. injection Hgroup as <-.
    apply (Permutation_in _ (Hsort _)) in Hseg.
    apply filter_In in Hseg. destruct Hseg as [_ Hseg].
    apply Nat.eqb_eq in Hseg. exact Hseg.
  - rewrite appendSegs_snd.
    apply Permutation_trans with (List.concat (groupsOf segs containerEls)).
    + apply concat_map_Permutation. exact Hsort.
    + apply groupsOf_Permutation. exact Hcols.
  - unfold detachSegs. rewrite appendSegs_snd. reflexivity.
Qed.

Lemma attachSegs_appends_witness :
  exists segsByCol appended,
    attachSegs (fun l => rev l) [Sample.seg 0 1; Sample.seg 2 3] 1 = Ok (segsByCol, appended) /\
    Permutation (map snd appended) [Sample.seg 0 1; Sample.seg 2 3].
Proof.
  destruct (attachSegs_appends (fun l => rev l) [Sample.seg 0 1; Sample.seg 2 3] 1)
    as (segsByCol & appended & E & _ & _ & _ & Hperm & _).
  - intros l. symmetry. apply Permutation_rev.
  - repeat constructor.
  - exists segsByCol, appended. split; [exact E | exact Hperm].
Defined.

(** ** Sub-renderers and the now indicator *)

(** X17: the date selection is never drawn twice, and the mirror is never
    told that it is resizing.  The highlight shows the selection exactly when
    [selectMirror] is off; the mirror shows it exactly when [selectMirror] is
    on and neither a drag nor a resize with segments is under way, and then
    the highlight is empty. *)
Theorem subrender_selection {Instances : Type}
    (eventDrag eventResize : option (Interaction Instances))
    (dateSelectionSegs : list Seg) (forPrint selectMirror : bool) :
  let rendered := subrender eventDrag eventResize dateSelectionSegs forPrint selectMirror in
  highlight_segs rendered = (if selectMirror then [] else dateSelectionSegs) /\
  (forall m, mirror rendered = Some m -> isResizing m = false) /\
  (forall m, mirror rendered = Some m ->
     (isSelecting m = true <->
      selectMirror = true /\ active eventDrag = None /\ active eventResize = None)) /\
  (forall m, mirror rendered = Some m -> isSelecting m = true ->
     mirror_segs m = dateSelectionSegs /\ highlight_segs rendered = [] /\
     isDragging m = false).
Proof.
  cbv zeta. unfold subrender, subrenderMirror. cbn [highlight_segs mirror].
  split; [reflexivity|].
  destruct (active eventDrag) as [drag|]; [|destruct (active eventResize) as [resize|]];
    try destruct selectMirror;
    repeat split; intros; try discriminate;
    repeat match goal with
    | H : Some _ = Some _ |- _ => injection H as <-
    | H : _ /\ _ |- _ => destruct H
    end; simpl in *; try reflexivity; try discriminate; auto.
Qed.

(** X18: instances are hidden exactly when the mirror is dragging, and they
    belong to the interaction the mirror shows: a drag with segments takes
    precedence over a resize with segments. *)
Theorem subrender_hidden_instances {Instances : Type}
    (eventDrag eventResize : option (Interaction Instances))
    (dateSelectionSegs : list Seg) (forPrint selectMirror : bool) :
  let rendered := subrender eventDrag eventResize dateSelectionSegs forPrint selectMirror in
  (forall instances, hiddenInstances rendered = Some instances ->
     exists interaction m,
       (active eventDrag = Some interaction \/
        (active eventDrag = None /\ active eventResize = Some interaction)) /\
       interaction_segs interaction <> [] /\
       instances = affectedInstances interaction /\
       mirror rendered = Some m /\
       mirror_segs m = interaction_segs interaction /\
       mirror_interactingSeg m = interactingSeg interaction /\
       isDragging m = true) /\
  (hiddenInstances rendered = None ->
   forall m, mirror rendered = Some m -> isDragging m = false /\ isSelecting m = true).
Proof.
  assert (Hactive : forall (state : option (Interaction Instances)) i,
             active state = Some i -> interaction_segs i <> []).
  { intros [i'|] i; simpl; [|discriminate].
    destruct (interaction_segs i') eqn:E; simpl; [discriminate|].
    intros H. injection H as <-. rewrite E. discriminate. }
  cbv zeta. unfold subrender, subrenderMirror. cbn [hiddenInstances mirror].
  destruct (active eventDrag) as [drag|] eqn:Edrag.
  - split; [|discriminate].
    intros instances H. injection H as <-.
    exists drag. eexists. repeat split; eauto.
  - destruct (active eventResize) as [resize|] eqn:Eresize; simpl option_map.
    + split; [|discriminate].
      intros instances H. injection H as <-.
      exists resize. eexists. repeat split; eauto.
    + split; [discriminate|].
      intros _ m. destruct selectMirror; [|discriminate].
      intros H. injection H as <-. split; reflexivity.
Qed.

Lemma subrender_hidden_instances_witness :
  let drag := {| interaction_segs := [Sample.seg 0 1]; affectedInstances := 7%nat;
                 interactingSeg := None |} in
  let resize := {| interaction_segs := [Sample.seg 2 3]; affectedInstances := 9%nat;
                   interactingSeg := None |} in
  exists m,
    mirror (subrender (Some drag) (Some resize) [] false true) = Some m /\
    mirror_segs m = [Sample.seg 0 1] /\ isDragging m = true.
Proof.
  cbv zeta.
  destruct (subrender_hidden_instances
              (Some {| interaction_segs := [Sample.seg 0 1]; affectedInstances := 7%nat;
                       interactingSeg := None |})
              (Some {| interaction_segs := [Sample.seg 2 3]; affectedInstances := 9%nat;
                       interactingSeg := None |})
              [] false true) as [H _].
  destruct (H 7%nat eq_refl) as (interaction & m & Hwho & _ & _ & Hm & Hsegs & _ & Hdrag).
  destruct Hwho as [Hwho | [Hwho _]]; [|discriminate].
  injection Hwho as <-.
  exists m. auto.
Defined.

(** X19: with a date, the now indicator raises a [TypeError] exactly when some
    segment names a column that has no container; without a date it returns
    no node and never raises, whatever the segments are. *)
Theorem renderNowIndicator_error (startOfDay : DateMarker -> DateMarker)
    (this : TimeCols) (segs : list Seg) :
  (forall date,
     _renderNowIndicator startOfDay this (Some date) segs = TypeError <->
     Exists (fun seg => (colContainerEls this <= col seg)%nat) segs) /\
  _renderNowIndicator startOfDay this None segs = Ok [].
Proof.
  split; [|reflexivity].
  intros date. unfold _renderNowIndicator.
  set (top_ := computeDateTop startOfDay this date None).
  assert (Hlines : renderLines this top_ segs = TypeError <->
                   Exists (fun seg => (colContainerEls this <= col seg)%nat) segs).
  { induction segs as [|seg rest IH]; simpl.
    - split; [discriminate | intros H; inversion H].
    - destruct (Nat.ltb_spec (col seg) (colContainerEls this)) as [Hlt | Hge].
      + destruct (renderLines this top_ rest) as [rest'|]; simpl.
        * split; [discriminate|].
          intros H. inversion H; subst; [lia|]. apply IH in H1. discriminate.
        * split; [|reflexivity]. intros _. right. apply IH. reflexivity.
      + split; [|reflexivity]. intros _. left. exact Hge. }
  rewrite <- Hlines.
  destruct (renderLines this top_ segs) as [nodes|]; simpl.
  - destruct (0 <? List.length segs)%nat; split; discriminate.
  - split; reflexivity.
Qed.
